(** * SU2Reader: a shallow embedding of the SU2 mesh reader

    The development follows [SU2Reader.py]: the text-level helpers of
    Python that the reader relies on ([str.strip], [str.split], [int],
    slices), the parser [read_su2], the grid builder [build_ugrid] and the
    two boundary compactors [build_surface_compacted] and
    [build_boundary_compacted_2d].

    Conventions.
    - A Python exception is a value of [exn]; a computation that may raise
      has type [result A].
    - Python [int] is [Z]; list indices and [range] counters are [nat]
      once they are known to be non-negative.
    - Text is ASCII: a [string] is a sequence of characters below 128.
      [str.strip] and [str.split] use the white space of [str.isspace];
      the constructor [int] skips a narrower set and has a digit limit.
    - Floating-point coordinates are kept abstract: the reader is
      parameterised by the coordinate type [F], its zero [fzero] and the
      reading [parse_float] of one field as a number.
    - A grid is what [build_ugrid] hands to the VTK containers: the
      coordinates given to [SetPoint], and the cell type and point ids
      given to [InsertNextCell]. What the containers do with them (they
      store coordinates in single precision, and refuse a point id that
      is not a [vtkIdType]) is outside the model; statements that depend
      on it assume [vtk_id] of the ids. *)

From Stdlib Require Import ZArith Ascii String.
From stdpp Require Import base tactics option list sorting gmap strings.

Local Open Scope string_scope.
Local Open Scope list_scope.
Local Open Scope Z_scope.

(** ** Exceptions *)

Inductive exn : Type :=
| RuntimeError (msg : string)
| IndexError
| ValueError
| KeyError.

Inductive result (A : Type) : Type :=
| Ok (a : A)
| Raise (e : exn).
Arguments Ok {A} a.
Arguments Raise {A} e.

Definition bind {A B} (m : result A) (k : A → result B) : result B :=
  match m with
  | Ok a => k a
  | Raise e => Raise e
  end.

Notation "'let*' x ':=' m 'in' k" := (bind m (fun x => k))
  (at level 10, x name, m at level 100, k at level 200, only parsing).
Notation "'let*' ' p ':=' m 'in' k" := (bind m (fun p => k))
  (at level 10, p pattern, m at level 100, k at level 200, only parsing).

Definition of_option {A} (o : option A) (e : exn) : result A :=
  match o with
  | Some a => Ok a
  | None => Raise e
  end.

(** [list(map(f, xs))] for an [f] that may raise: the first failure wins. *)
Fixpoint map_result {A B} (f : A → result B) (xs : list A) : result (list B) :=
  match xs with
  | [] => Ok []
  | x :: xs' => let* y := f x in let* ys := map_result f xs' in Ok (y :: ys)
  end.

(** [for k in range(start, start + n): s = body(k, s)], stopping at the
    first exception. *)
Fixpoint for_range {St} (start n : nat) (body : nat → St → result St)
    (s : St) : result St :=
  match n with
  | O => Ok s
  | S n' => let* s' := body start s in for_range (S start) n' body s'
  end.

(** ** Python text primitives *)

(** [str.isspace] on one ASCII character. *)
Definition is_space (c : ascii) : bool :=
  let n := nat_of_ascii c in
  ((9 <=? n) && (n <=? 13) || (28 <=? n) && (n <=? 32))%nat.

Fixpoint lstrip (s : string) : string :=
  match s with
  | EmptyString => EmptyString
  | String c s' => if is_space c then lstrip s' else s
  end.

Fixpoint rstrip (s : string) : string :=
  match s with
  | EmptyString => EmptyString
  | String c s' =>
      match rstrip s' with
      | EmptyString => if is_space c then EmptyString else String c EmptyString
      | t => String c t
      end
  end.

(** [s.strip()] *)
Definition strip (s : string) : string := rstrip (lstrip s).

(** [s.startswith(key)] *)
Definition startswith (key s : string) : bool := String.prefix key s.

(** [s.split(sep)] for a one-character separator: every occurrence of
    [sep] cuts, empty pieces are kept, the result is never empty. *)
Fixpoint split_on (sep : ascii) (s : string) : list string :=
  match s with
  | EmptyString => [EmptyString]
  | String c s' =>
      if Ascii.eqb c sep then EmptyString :: split_on sep s'
      else match split_on sep s' with
           | h :: t => String c h :: t
           | [] => [String c EmptyString]
           end
  end.

Definition emit (tok : list ascii) (rest : list string) : list string :=
  match tok with
  | [] => rest
  | _ => string_of_list_ascii (rev tok) :: rest
  end.

Fixpoint split_go (tok : list ascii) (s : string) : list string :=
  match s with
  | EmptyString => emit tok []
  | String c s' =>
      if is_space c then emit tok (split_go [] s') else split_go (c :: tok) s'
  end.

(** [s.split()]: the maximal runs of non-space characters. *)
Definition split (s : string) : list string := split_go [] s.

(** *** [int(s)] *)

Definition digit_of (c : ascii) : option Z :=
  let n := nat_of_ascii c in
  if ((48 <=? n) && (n <=? 57))%nat then Some (Z.of_nat (n - 48)) else None.

Inductive int_state : Type := AtStart | AfterDigit | AfterUnderscore.

(** Decimal digits, single underscores allowed between two digits. *)
Fixpoint digits_go (st : int_state) (acc : Z) (s : string) : option Z :=
  match s with
  | EmptyString =>
      match st with
      | AfterDigit => Some acc
      | _ => None
      end
  | String c s' =>
      match digit_of c with
      | Some d => digits_go AfterDigit (10 * acc + d) s'
      | None =>
          if Ascii.eqb c "_"%char then
            match st with
            | AfterDigit => digits_go AfterUnderscore acc s'
            | _ => None
            end
          else None
      end
  end.

Definition int_literal (s : string) : option Z :=
  match s with
  | String "+"%char s' => digits_go AtStart 0 s'
  | String "-"%char s' => Z.opp <$> digits_go AtStart 0 s'
  | _ => digits_go AtStart 0 s
  end.

(** The white space that [int] skips around a literal: tab, line feed,
    vertical tab, form feed, carriage return and space. This set is
    narrower than that of [str.strip], which also removes the separators
    28 to 31. *)
Definition is_int_space (c : ascii) : bool :=
  let n := nat_of_ascii c in
  ((9 <=? n) && (n <=? 13) || (n =? 32))%nat.

Fixpoint int_lstrip (s : string) : string :=
  match s with
  | EmptyString => EmptyString
  | String c s' => if is_int_space c then int_lstrip s' else s
  end.

Fixpoint int_rstrip (s : string) : string :=
  match s with
  | EmptyString => EmptyString
  | String c s' =>
      match int_rstrip s' with
      | EmptyString =>
          if is_int_space c then EmptyString else String c EmptyString
      | t => String c t
      end
  end.

Definition int_strip (s : string) : string := int_rstrip (int_lstrip s).

(** The number of decimal digits of a literal, leading zeros included. *)
Fixpoint count_digits (s : string) : Z :=
  match s with
  | EmptyString => 0
  | String c s' =>
      match digit_of c with
      | Some _ => 1 + count_digits s'
      | None => count_digits s'
      end
  end.

(** [sys.get_int_max_str_digits()], at its default. *)
Definition int_max_str_digits : Z := 4300.

(** [int(s)]: the white space of [is_int_space] around the literal is
    skipped; anything that is not a signed decimal literal, and a literal
    of more than [int_max_str_digits] digits, raises [ValueError]. *)
Definition int (s : string) : result Z :=
  let t := int_strip s in
  if int_max_str_digits <? count_digits t then Raise ValueError
  else of_option (int_literal t) ValueError.

(** *** Indexing and slices *)

(** [l[i]] for [i >= 0] *)
Definition index {A} (l : list A) (i : nat) : result A :=
  of_option (l !! i) IndexError.

(** [l[:stop]] for any integer [stop]: a negative [stop] counts from the
    end, and the bounds are clipped to the list. *)
Definition slice_to {A} (stop : Z) (l : list A) : list A :=
  if 0 <=? stop then take (Z.to_nat stop) l
  else take (Z.to_nat (Z.of_nat (length l) + stop)) l.

(** [seq[i]] of a numpy array or list by an integer of either sign:
    [-n <= i < n], a negative [i] counting from the end. *)
Definition np_index {A} (l : list A) (i : Z) : result A :=
  let n := Z.of_nat (length l) in
  if (0 <=? i) && (i <? n) then index l (Z.to_nat i)
  else if (- n <=? i) && (i <? 0) then index l (Z.to_nat (n + i))
  else Raise IndexError.

(** ** Element tables *)

(** SU2 element type -> VTK cell type *)
Definition VTK_TYPE_MAP : gmap Z Z :=
  list_to_map [(3, 3); (5, 5); (9, 9); (10, 10); (12, 12); (13, 13); (14, 14)].

(** Expected node counts for SU2 elements *)
Definition SU2_NNODES : gmap Z Z :=
  list_to_map [(3, 2); (5, 3); (9, 4); (10, 4); (12, 8); (13, 6); (14, 5)].

(** [d[k] = v] on a Python dict kept in insertion order: an existing key
    keeps its place and takes the new value, a new key goes last. *)
Fixpoint dict_set {V} (k : string) (v : V) (d : list (string * V))
  : list (string * V) :=
  match d with
  | [] => [(k, v)]
  | (k', v') :: d' =>
      if decide (k = k') then (k, v) :: d' else (k', v') :: dict_set k v d'
  end.

(** [d.get(k)] on the same representation. *)
Fixpoint dict_get {V} (k : string) (d : list (string * V)) : option V :=
  match d with
  | [] => None
  | (k', v') :: d' => if decide (k = k') then Some v' else dict_get k d'
  end.

(** ** The reader *)

(** [lines = [l.strip() for l in f if l.strip() and not l.startswith("%")]] *)
Definition filter_lines (raw : list string) : list string :=
  strip <$>
    List.filter (λ l, negb (String.eqb (strip l) "") && negb (startswith "%" l))
      raw.

(** The local function [find] of [read_su2]: the index of the first line
    that starts with [key]. *)
Definition find (lines : list string) (key : string) : option nat :=
  fst <$> list_find (λ l, startswith key l = true) lines.

(** [line.split("=")[1]] *)
Definition value_field (line : string) : result string :=
  index (split_on "=" line) 1.

(** [int(lines[i].split("=")[1])] *)
Definition int_value (lines : list string) (i : nat) : result Z :=
  let* l := index lines i in
  let* v := value_field l in
  int v.

(** The connectivity of a volume element (lines 111-114). *)
Definition volume_conn (ndime : Z) (etype : Z) (parts : list Z) : list Z :=
  if decide (ndime = 2) then
    match SU2_NNODES !! etype with
    | Some n => take (Z.to_nat n) (drop 1 parts)
    | None => drop 1 parts
    end
  else drop 1 parts.

(** The body of the [NELEM] loop (lines 102-117). *)
Definition volume_step (lines : list string) (ndime : Z) (i_elem : nat)
    (k : nat) (acc : list (list Z) * list Z) : result (list (list Z) * list Z) :=
  let '(vol_conns, vol_ctypes) := acc in
  let* l := index lines (i_elem + 1 + k) in
  let* parts := map_result int (split l) in
  let* etype := index parts 0 in
  match VTK_TYPE_MAP !! etype with
  | None => Ok (vol_conns, vol_ctypes)
  | Some ct =>
      Ok (vol_conns ++ [volume_conn ndime etype parts], vol_ctypes ++ [ct])
  end.

(** The 2D fix of a marker element (lines 138-139). *)
Definition marker_fix (ndime : Z) (e : list Z) : list Z :=
  if decide (ndime = 2) then
    match e with
    | [] => e
    | etype :: _ =>
        match SU2_NNODES !! etype with
        | Some n => take (Z.to_nat (1 + n)) e
        | None => e
        end
    end
  else e.

(** The body of the loop over the elements of one marker (lines 135-142);
    the state is the line cursor [p] and the list [elems]. *)
Definition marker_elem_step (lines : list string) (ndime : Z)
    (k : nat) (acc : nat * list (list Z)) : result (nat * list (list Z)) :=
  let '(p, elems) := acc in
  let* l := index lines p in
  let* e := map_result int (split l) in
  Ok (S p, elems ++ [marker_fix ndime e]).

(** One marker block read at line [p] (lines 128-142): the tag, the
    element count, then that many element lines. Returns the cursor after
    the block, the tag and the elements. *)
Definition read_marker (lines : list string) (ndime : Z) (p : nat)
  : result (nat * string * list (list Z)) :=
  let* l := index lines p in
  let* v := value_field l in
  let tag := strip v in
  let p := S p in
  let* ne := int_value lines p in
  let p := S p in
  let* '(p, elems) :=
    for_range 0 (Z.to_nat ne) (marker_elem_step lines ndime) (p, []) in
  Ok (p, tag, elems).

(** The body of the loop over markers (lines 128-144); the state is the
    line cursor [p] and the dict [markers]. *)
Definition marker_step (lines : list string) (ndime : Z)
    (k : nat) (acc : nat * list (string * list (list Z)))
  : result (nat * list (string * list (list Z))) :=
  let '(p, markers) := acc in
  let* '(p, tag, elems) := read_marker lines ndime p in
  Ok (p, dict_set tag elems markers).

(** The [NDIME] section (lines 80-83). *)
Definition read_ndime (lines : list string) : result Z :=
  let* i := of_option (find lines "NDIME") (RuntimeError "NDIME not found") in
  int_value lines i.

(** The [NELEM] section (lines 97-117). *)
Definition read_volume (lines : list string) (ndime : Z)
  : result (list (list Z) * list Z) :=
  match find lines "NELEM" with
  | Some i_elem =>
      let* nelem := int_value lines i_elem in
      for_range 0 (Z.to_nat nelem) (volume_step lines ndime i_elem) ([], [])
  | None => Ok ([], [])
  end.

(** The [NMARK] section (lines 120-144). *)
Definition read_markers (lines : list string) (ndime : Z)
  : result (list (string * list (list Z))) :=
  let* i := of_option (find lines "NMARK") (RuntimeError "NMARK not found") in
  let* nmark := int_value lines i in
  let* '(_, markers) :=
    for_range 0 (Z.to_nat nmark) (marker_step lines ndime) (S i, []) in
  Ok markers.

Section Reader.
Context {F : Type} (fzero : F) (parse_float : string → option F).

(** [float(s)]: a field that is not a number raises [ValueError]. *)
Definition float (s : string) : result F :=
  of_option (parse_float s) ValueError.

(** [row[:stop] = xyz] on one row of a numpy array: the shapes must
    agree, except that a single value is broadcast over the slice. *)
Definition assign_slice (row : list F) (stop : Z) (xyz : list F)
  : result (list F) :=
  let n := length (slice_to stop row) in
  if decide (length xyz = n) then Ok (xyz ++ drop n row)
  else match xyz with
       | [x] => Ok (replicate n x ++ drop n row)
       | _ => Raise ValueError
       end.

(** The body of the [NPOIN] loop (lines 93-94). *)
Definition point_step (lines : list string) (ndime : Z) (i : nat)
    (k : nat) (pts : list (list F)) : result (list (list F)) :=
  let* l := index lines (i + 1 + k) in
  let* xyz := map_result float (slice_to ndime (split l)) in
  let* row := index pts k in
  let* row' := assign_slice row ndime xyz in
  Ok (<[k := row']> pts).

(** [np.zeros((npoin, 3))] *)
Definition np_zeros3 (npoin : Z) : result (list (list F)) :=
  if npoin <? 0 then Raise ValueError
  else Ok (replicate (Z.to_nat npoin) [fzero; fzero; fzero]).

(** The [NPOIN] section (lines 86-94). *)
Definition read_points (lines : list string) (ndime : Z)
  : result (list (list F)) :=
  let* i := of_option (find lines "NPOIN") (RuntimeError "NPOIN not found") in
  let* npoin := int_value lines i in
  let* pts := np_zeros3 npoin in
  for_range 0 (Z.to_nat npoin) (point_step lines ndime i) pts.

(** [read_su2] on the lines of the file: the four sections are read in
    this order, and the first exception aborts the call. *)
Definition read_su2 (raw : list string)
  : result (Z * list (list F) * list (list Z) * list Z
            * list (string * list (list Z))) :=
  let lines := filter_lines raw in
  let* ndime := read_ndime lines in
  let* pts := read_points lines ndime in
  let* '(vol_conns, vol_ctypes) := read_volume lines ndime in
  let* markers := read_markers lines ndime in
  Ok (ndime, pts, vol_conns, vol_ctypes, markers).
End Reader.

(** ** Grids and compaction *)

(** [for x in xs: s = body(x, s)], stopping at the first exception. *)
Fixpoint for_each {A St} (xs : list A) (body : A → St → result St) (s : St)
  : result St :=
  match xs with
  | [] => Ok s
  | x :: xs' => let* s' := body x s in for_each xs' body s'
  end.

(** [sorted(used)] of a set of integers. The order in which Python
    iterates over a set is not specified: [iter] stands for it, and the
    sort orders whatever sequence [iter] gives. *)
Definition sorted (iter : gset Z → list Z) (used : gset Z) : list Z :=
  merge_sort Z.le (iter used).

(** [list(enumerate(l))] *)
Fixpoint enumerate_from {A} (start : Z) (l : list A) : list (Z * A) :=
  match l with
  | [] => []
  | x :: l' => (start, x) :: enumerate_from (start + 1) l'
  end.

Definition enumerate {A} (l : list A) : list (Z * A) := enumerate_from 0 l.

(** [{o: i for i, o in enumerate(used)}]: a later pair overwrites an
    earlier one with the same key. *)
Definition old2new_of (used : list Z) : gmap Z Z :=
  foldl (λ m io, <[io.2 := io.1]> m) ∅ (enumerate used).

(** [d[k]] on a dict *)
Definition dict_index (d : gmap Z Z) (k : Z) : result Z :=
  of_option (d !! k) KeyError.

(** [VTK_TYPE_MAP[etype]] *)
Definition vtk_type (etype : Z) : result Z := dict_index VTK_TYPE_MAP etype.

(** The state of the collecting loops: [used], [conns], [ctypes]. *)
Definition collected : Type := gset Z * list (list Z) * list Z.

(** The body of the loop of [build_surface_compacted] (lines 180-187). *)
Definition surface_step (e : list Z) (acc : collected) : result collected :=
  let '(used, conns, ctypes) := acc in
  match e with
  | [] => Ok acc
  | etype :: _ =>
      if decide (etype = 5 ∨ etype = 9) then
        let conn := drop 1 e in
        let* ct := vtk_type etype in
        Ok (used ∪ list_to_set conn, conns ++ [conn], ctypes ++ [ct])
      else Ok acc
  end.

(** The body of the loop of [build_boundary_compacted_2d] (lines 209-216). *)
Definition line_step (e : list Z) (acc : collected) : result collected :=
  let '(used, conns, ctypes) := acc in
  match e with
  | [] => Ok acc
  | etype :: _ =>
      if decide (etype = 3) then
        let conn := take 2 (drop 1 e) in
        if decide (length conn = 2%nat) then
          let* ct := vtk_type 3 in
          Ok (used ∪ list_to_set conn, conns ++ [conn], ctypes ++ [ct])
        else Ok acc
      else Ok acc
  end.

Section Grid.
Context {F : Type} (iter : gset Z → list Z).

(** A [vtkUnstructuredGrid] without data arrays: the points given to
    [SetPoint] and the cells given to [InsertNextCell], each a cell type
    with a list of point ids. *)
Record ugrid : Type := UGrid {
  ug_points : list (F * F * F);
  ug_cells : list (Z * list Z)
}.

(** [(p[0], p[1], p[2])] of one row *)
Definition vtk_point (p : list F) : result (F * F * F) :=
  let* x := index p 0 in
  let* y := index p 1 in
  let* z := index p 2 in
  Ok (x, y, z).

Definition build_ugrid (points : list (list F)) (conns : list (list Z))
    (ctypes : list Z) : result ugrid :=
  let* vtk_pts := map_result vtk_point points in
  Ok (UGrid vtk_pts (zip_with (λ conn ct, (ct, conn)) conns ctypes)).

(** [global_pts[used, :]] *)
Definition np_take (global_pts : list (list F)) (used : list Z)
  : result (list (list F)) :=
  map_result (np_index global_pts) used.

(** [[[old2new[n] for n in c] for c in conns]] *)
Definition remap (old2new : gmap Z Z) (conns : list (list Z))
  : result (list (list Z)) :=
  map_result (map_result (dict_index old2new)) conns.

Definition build_surface_compacted (global_pts : list (list F))
    (elems : list (list Z)) : result (option ugrid) :=
  let* '(used, conns, ctypes) := for_each elems surface_step (∅, [], []) in
  match conns with
  | [] => Ok None
  | _ =>
      let used := sorted iter used in
      let old2new := old2new_of used in
      let* local_pts := np_take global_pts used in
      let* local_conns := remap old2new conns in
      let* ug := build_ugrid local_pts local_conns ctypes in
      Ok (Some ug)
  end.

Definition build_boundary_compacted_2d (global_pts : list (list F))
    (elems : list (list Z)) : result (option ugrid) :=
  let* '(used, conns, ctypes) := for_each elems line_step (∅, [], []) in
  match conns with
  | [] => Ok None
  | _ =>
      let used := sorted iter used in
      let old2new := old2new_of used in
      let* local_pts := np_take global_pts used in
      let* local_conns := remap old2new conns in
      let* ug := build_ugrid local_pts local_conns ctypes in
      Ok (Some ug)
  end.
(** The code after the collecting loop, the same in both builders
    (lines 189-198 and 218-227). *)
Definition compact_tail (global_pts : list (list F)) (used : gset Z)
    (conns : list (list Z)) (ctypes : list Z) : result (option ugrid) :=
  match conns with
  | [] => Ok None
  | _ =>
      let used := sorted iter used in
      let old2new := old2new_of used in
      let* local_pts := np_take global_pts used in
      let* local_conns := remap old2new conns in
      let* ug := build_ugrid local_pts local_conns ctypes in
      Ok (Some ug)
  end.
End Grid.
Arguments ugrid F : clear implicits.

(** ** Vocabulary of the statements *)

(** The number of members of [used] below [n]: the rank of [n]. *)
Definition rank (used : list Z) (n : Z) : Z :=
  Z.of_nat (length (filter (λ o, o < n) used)).

(** All the indices that a list of connectivities refers to. *)
Definition referenced (conns : list (list Z)) : gset Z :=
  ⋃ (list_to_set <$> conns).

(** The type code of an element record: its first integer. *)
Definition type_code (e : list Z) : option Z := head e.

(** The records that [build_surface_compacted] keeps: triangles and quads. *)
Definition surface_eligible (e : list Z) : Prop :=
  type_code e = Some 5 ∨ type_code e = Some 9.

(** The records that [build_boundary_compacted_2d] keeps: lines that carry
    at least two node indices. *)
Definition line_eligible (e : list Z) : Prop :=
  type_code e = Some 3 ∧ (3 ≤ length e)%nat.

#[global] Instance surface_eligible_dec (e : list Z) : Decision (surface_eligible e).
Proof. unfold surface_eligible. apply _. Defined.

#[global] Instance line_eligible_dec (e : list Z) : Decision (line_eligible e).
Proof. unfold line_eligible. apply _. Defined.

(** The compact points of a result, when there is one. *)
Definition points_of {F} (r : result (option (ugrid F)))
  : result (option (list (F * F * F))) :=
  match r with
  | Ok (Some ug) => Ok (Some (ug_points ug))
  | Ok None => Ok None
  | Raise e => Raise e
  end.

(** A compact mesh refers to its own points, and [used] maps every new
    index back to the old one. *)
Definition round_trip {F} (used : list Z) (conns : list (list Z))
    (ug : ugrid F) : Prop :=
  length (ug_points ug) = length used ∧
  Forall2 (λ conn cell,
    Forall2 (λ n i,
      old2new_of used !! n = Some i ∧
      0 ≤ i < Z.of_nat (length (ug_points ug)) ∧
      used !! Z.to_nat i = Some n) conn cell.2) conns (ug_cells ug).

(** [c] does not occur in [s]. *)
Fixpoint free_of (c : ascii) (s : string) : Prop :=
  match s with
  | EmptyString => True
  | String c' s' => c' ≠ c ∧ free_of c s'
  end.


(** Line [p] holds the integer record [parts]. *)
Definition record_at (lines : list string) (p : nat) (parts : list Z) : Prop :=
  ∃ l, lines !! p = Some l ∧ map_result int (split l) = Ok parts.

(** The [n] marker blocks that start at line [p], in file order, with the
    cursor after the last one: the marker loop without its dict. *)
Fixpoint marker_blocks (lines : list string) (ndime : Z) (p n : nat)
  : result (nat * list (string * list (list Z))) :=
  match n with
  | O => Ok (p, [])
  | S n' =>
      let* '(p', tag, elems) := read_marker lines ndime p in
      let* '(p'', blocks) := marker_blocks lines ndime p' n' in
      Ok (p'', (tag, elems) :: blocks)
  end.

(** [markers[tag] = elems] for each block in turn. *)
Definition store_blocks {V} (markers : list (string * V))
    (blocks : list (string * V)) : list (string * V) :=
  foldl (λ m b, dict_set b.1 b.2 m) markers blocks.

(** A record whose type code is one of the seven of [VTK_TYPE_MAP]. *)
Definition recognized (parts : list Z) : Prop :=
  match type_code parts with
  | Some t => is_Some (VTK_TYPE_MAP !! t)
  | None => False
  end.

#[global] Instance recognized_dec (parts : list Z) : Decision (recognized parts).
Proof. unfold recognized. destruct (type_code parts); apply _. Defined.

(** The volume element that a recognized record gives. *)
Definition volume_of (ndime : Z) (parts : list Z) : list Z * Z :=
  let etype := default 0 (type_code parts) in
  (volume_conn ndime etype parts, etype).

(** Row [k] of the point array against line [i + 1 + k] of the file. *)
Definition point_row {F} (fzero : F) (parse_float : string → option F)
  (lines : list string) (ndime : Z) (i k : nat) (row : list F) : Prop :=
  length row = 3%nat ∧
  (ndime = 2 → row !! 2%nat = Some fzero) ∧
  ∃ l, lines !! (i + 1 + k)%nat = Some l ∧
    (ndime = 2 ∨ ndime = 3 → (Z.to_nat ndime ≤ length (split l))%nat →
     map_result (float parse_float) (take (Z.to_nat ndime) (split l))
     = Ok (take (Z.to_nat ndime) row)).

(** The connectivity [conn] of the volume record [parts], a type code
    followed by node indices: with dimension 2 the first [n] node indices,
    [n] the expected count of the type code, or all of them when there are
    fewer; with any other dimension all of them. *)
Definition volume_trimmed (ndime : Z) (parts conn : list Z) : Prop :=
  ∃ t nodes n, parts = t :: nodes ∧ SU2_NNODES !! t = Some n ∧
    (ndime = 2 →
       conn = take (Z.to_nat n) nodes ∧
       length conn = (Z.to_nat n `min` length nodes)%nat) ∧
    (ndime ≠ 2 → conn = nodes).

(** The marker element [e] of the record [parts]: with dimension 2 and a
    type code [t] that has an expected count [n], the type code and the
    first [n] node indices, or all of them when there are fewer; the
    record itself in every other case. *)
Definition marker_trimmed (ndime : Z) (parts e : list Z) : Prop :=
  (ndime = 2 → ∀ t nodes, parts = t :: nodes →
     (∀ n, SU2_NNODES !! t = Some n →
        e = t :: take (Z.to_nat n) nodes ∧
        length (drop 1 e) = (Z.to_nat n `min` length nodes)%nat) ∧
     (SU2_NNODES !! t = None → e = parts)) ∧
  (parts = [] → e = []) ∧
  (ndime ≠ 2 → e = parts).

(** The exceptions of a malformed record or a missing line. *)
Definition malformed (e : exn) : Prop := e = IndexError ∨ e = ValueError.

(** [m] raises nothing but exceptions in [P]. *)
Definition raises_only {A} (P : exn → Prop) (m : result A) : Prop :=
  ∀ e, m = Raise e → P e.

(** ** The reader plugin *)

Section Request.
Context {F : Type} (fzero : F) (parse_float : string → option F)
  (iter : gset Z → list Z).

(** The builder that [RequestData] picks for a marker (lines 281-284). *)
Definition build_block (ndime : Z) (pts : list (list F))
    (elems : list (list Z)) : result (option (ugrid F)) :=
  if decide (ndime = 2) then build_boundary_compacted_2d iter pts elems
  else build_surface_compacted iter pts elems.

(** The body of the loop over [markers.items()] (lines 280-287). *)
Definition block_step (ndime : Z) (pts : list (list F))
    (marker : string * list (list Z)) (blocks : list (string * ugrid F))
  : result (list (string * ugrid F)) :=
  let '(tag, elems) := marker in
  let* surf := build_block ndime pts elems in
  match surf with
  | Some s => Ok (blocks ++ [(tag, s)])
  | None => Ok blocks
  end.

(** [f"marker:{tag}"] *)
Definition block_name (tag : string) : string := ("marker:" ++ tag)%string.

(** [RequestData] (lines 266-300). [_filename] is the attribute of the
    reader and [raw] the lines of the file of that name. The result is the
    status code with, when data was produced, the volume grid of output 0
    and the named blocks of output 1, in block order. *)
Definition RequestData (_filename : option string) (raw : list string)
  : result (Z * option (ugrid F * list (string * ugrid F))) :=
  match _filename with
  | None | Some EmptyString => Ok (0, None)
  | Some _ =>
      let* '(ndime, pts, conns, ctypes, markers) :=
        read_su2 fzero parse_float raw in
      let* out0 := build_ugrid pts conns ctypes in
      let* blocks := for_each markers (block_step ndime pts) [] in
      Ok (1, Some (out0, (λ b, (block_name b.1, b.2)) <$> blocks))
  end.
End Request.

(** The records that give a marker a block: lines for dimension 2,
    triangles and quads otherwise. *)
Definition block_eligible (ndime : Z) (e : list Z) : Prop :=
  if decide (ndime = 2) then line_eligible e else surface_eligible e.

#[global] Instance block_eligible_dec ndime e : Decision (block_eligible ndime e).
Proof. unfold block_eligible. destruct (decide (ndime = 2)); apply _. Defined.

(** A marker with at least one such record. *)
Definition has_block (ndime : Z) (marker : string * list (list Z)) : Prop :=
  Exists (block_eligible ndime) marker.2.

#[global] Instance has_block_dec ndime marker : Decision (has_block ndime marker).
Proof. unfold has_block. apply _. Defined.

(** [i] is a valid numpy index into [l], counted from either end. *)
Definition in_range {A} (l : list A) (i : Z) : Prop :=
  - Z.of_nat (length l) ≤ i < Z.of_nat (length l).

(** The rows and the records of a grid: what [build_ugrid] was given. *)
Definition rows_of_grid {F} (ug : ugrid F) : list (list F) :=
  (λ p, [p.1.1; p.1.2; p.2]) <$> ug_points ug.

Definition records_of_grid {F} (ug : ugrid F) : list (list Z) :=
  (λ cell, cell.1 :: cell.2) <$> ug_cells ug.

(** A point id that fits [vtkIdType], a signed integer of 64 bits. *)
Definition vtk_id (n : Z) : Prop := - 2 ^ 63 ≤ n < 2 ^ 63.

(** A cell type that the reader produces: a value of [VTK_TYPE_MAP]. *)
Definition vtk_cell_type (ct : Z) : Prop := ∃ t, VTK_TYPE_MAP !! t = Some ct.

(** The node indices that the builder for dimension [ndime] takes from a
    record that it keeps. *)
Definition block_nodes (ndime : Z) (rec : list Z) : list Z :=
  if decide (ndime = 2) then take 2 (drop 1 rec) else drop 1 rec.

(** A marker with a kept record that refers to a point outside [pts]. *)
Definition dangling {F} (ndime : Z) (pts : list (list F))
    (marker : string * list (list Z)) : Prop :=
  ∃ rec n, rec ∈ filter (block_eligible ndime) marker.2 ∧
           n ∈ block_nodes ndime rec ∧ ¬ in_range pts n.

(** ** Sample inputs *)

(** Coordinates read as integers, for the examples. *)
Definition sample_float (s : string) : option Z := int_literal (strip s).

(** Fourteen points, point [k] at [(k, 10 k, 0)]. *)
Definition sample_pts : list (list Z) :=
  (λ k, [Z.of_nat k; 10 * Z.of_nat k; 0]) <$> seq 0 14.

(** The triangle and the quad of the surface scenario. *)
Definition sample_surface : list (list Z) :=
  [[5; 0; 1; 2]; [9; 10; 11; 12; 13]].

Definition sample_surface_mesh : ugrid Z :=
  UGrid [(0, 0, 0); (1, 10, 0); (2, 20, 0); (10, 100, 0); (11, 110, 0);
         (12, 120, 0); (13, 130, 0)]
        [(5, [0; 1; 2]); (9, [3; 4; 5; 6])].

(** Records of a 2D marker: a line with a trailing field, a line that is
    too short, a triangle and a second line. *)
Definition sample_lines : list (list Z) :=
  [[3; 7; 2; 9]; [3; 1]; [5; 1; 2; 3]; [3; 2; 4]].

Definition sample_lines_mesh : ugrid Z :=
  UGrid [(2, 20, 0); (4, 40, 0); (7, 70, 0)] [(3, [2; 0]); (3, [0; 1])].

(** A 2D file: a quad with a trailing field, a volume record of an unknown
    type, a marker with an unknown type, and two markers with one tag. *)
Definition sample_file : list string :=
  ["% a square"; "NDIME= 2"; ""; "NPOIN= 4"; "0 0 7"; "1 0"; "1 1"; "0 1";
   "NELEM= 2"; "9 0 1 2 3 99"; "77 1 2";
   "NMARK= 3";
   "MARKER_TAG= wall"; "MARKER_ELEMS= 2"; "3 0 1 5"; "99 1 2 3";
   "MARKER_TAG= inlet"; "MARKER_ELEMS= 2"; "3 1 2"; "99 4 5 6 7";
   "MARKER_TAG= wall"; "MARKER_ELEMS= 1"; "3 2 3"].

Definition sample_result :
  Z * list (list Z) * list (list Z) * list Z * list (string * list (list Z)) :=
  (2, [[0; 0; 0]; [1; 0; 0]; [1; 1; 0]; [0; 1; 0]], [[0; 1; 2; 3]], [9],
   [("wall", [[3; 2; 3]]); ("inlet", [[3; 1; 2]; [99; 4; 5; 6; 7]])]).

(** A 2D file with records that are too long and too short: a triangle
    with a trailing field and a quad with two node indices; a marker with
    a line with a trailing field, a line with one node index and an
    element of unknown type. *)
Definition ragged_file : list string :=
  ["NDIME= 2"; "NPOIN= 3"; "0 0"; "1 0"; "0 1";
   "NELEM= 2"; "5 0 1 2 7"; "9 0 1";
   "NMARK= 1";
   "MARKER_TAG= wall"; "MARKER_ELEMS= 3"; "3 0 1 8"; "3 2"; "99 1 2 3"].

Definition ragged_result :
  Z * list (list Z) * list (list Z) * list Z * list (string * list (list Z)) :=
  (2, [[0; 0; 0]; [1; 0; 0]; [0; 1; 0]], [[0; 1; 2]; [0; 1]], [5; 9],
   [("wall", [[3; 0; 1]; [3; 2]; [99; 1; 2; 3]])]).

(** A file whose dimension is not a number and that has no [NMARK]. *)
Definition broken_file : list string := ["NDIME= two"; "NPOIN= 0"].

(** A 3D file with a point line of one field. *)
Definition short_file : list string :=
  ["NDIME= 3"; "NPOIN= 2"; "5"; "1 2 3"; "NMARK= 0"].

(** A 2D file whose marker refers to a point that does not exist. *)
Definition dangling_file : list string :=
  ["NDIME= 2"; "NPOIN= 2"; "0 0"; "1 0"; "NMARK= 1";
   "MARKER_TAG= wall"; "MARKER_ELEMS= 1"; "3 0 7"].

(** * Properties *)

(** ** The exception monad *)

Lemma bind_Ok {A B} (m : result A) (k : A → result B) (b : B) :
  bind m k = Ok b ↔ ∃ a, m = Ok a ∧ k a = Ok b.
Proof.
  destruct m as [a|e]; simpl; split.
  - eauto.
  - by intros (a' & [= <-] & ?).
  - discriminate.
  - by intros (a' & ? & _).
Qed.

Lemma bind_Raise {A B} (m : result A) (k : A → result B) (e : exn) :
  bind m k = Raise e ↔ m = Raise e ∨ ∃ a, m = Ok a ∧ k a = Raise e.
Proof.
  destruct m as [a|e']; simpl; split.
  - eauto.
  - intros [?|(a' & [= <-] & ?)]; [discriminate|done].
  - intros [= ->]. by left.
  - intros [[= ->]|(a' & ? & _)]; [done|discriminate].
Qed.

Lemma of_option_Ok {A} (o : option A) (e : exn) (a : A) :
  of_option o e = Ok a ↔ o = Some a.
Proof. destruct o; simpl; split; congruence. Qed.

(** Inversion of a hypothesis [c = Ok v] through the binds of [c]. *)
Ltac inv_ok H :=
  repeat match type of H with
  | bind _ _ = Ok _ =>
      let a := fresh "a" in let Ha := fresh "Ha" in
      apply bind_Ok in H; destruct H as (a & Ha & H)
  | of_option _ _ = Ok _ => apply of_option_Ok in H
  | Ok _ = Ok _ => injection H as H
  | Raise _ = Ok _ => discriminate H
  | (let '(_, _) := ?p in _) = Ok _ => destruct p
  end.

Lemma map_result_Ok {A B} (f : A → result B) (xs : list A) (ys : list B) :
  map_result f xs = Ok ys ↔ Forall2 (λ x y, f x = Ok y) xs ys.
Proof.
  revert ys. induction xs as [|x xs IH]; intros ys; simpl.
  - split; [intros [= <-]; constructor | by inversion 1].
  - rewrite bind_Ok. split.
    + intros (y & Hy & H). apply bind_Ok in H as (ys' & Hys & [= <-]).
      constructor; [done | by apply IH].
    + inversion 1 as [|? y ? ys' Hy Hys]; subst. exists y. split; [done|].
      apply IH in Hys. by rewrite Hys.
Qed.

Lemma map_result_fmap {A B} (f : A → result B) (g : A → B) (xs : list A) :
  (∀ x, x ∈ xs → f x = Ok (g x)) → map_result f xs = Ok (g <$> xs).
Proof.
  intros H. apply map_result_Ok, Forall2_fmap_r, Forall_Forall2_diag.
  by apply Forall_forall.
Qed.

(** An invariant of a [for_range] loop that ran to its end. *)
Lemma for_range_inv {St} (P : nat → St → Prop) (body : nat → St → result St)
    (start n : nat) (s s' : St) :
  P start s →
  (∀ k t t', (start ≤ k < start + n)%nat → P k t → body k t = Ok t' → P (S k) t') →
  for_range start n body s = Ok s' →
  P (start + n)%nat s'.
Proof.
  revert start s. induction n as [|n IH]; intros start s H0 Hstep; simpl.
  - intros [= <-]. by rewrite Nat.add_0_r.
  - intros H. inv_ok H. replace (start + S n)%nat with (S start + n)%nat by lia.
    eapply IH; [| |done].
    + eapply Hstep; [|done..]. lia.
    + intros k t t' ?. apply Hstep. lia.
Qed.

(** A loop whose body never raises runs to its end. *)
Lemma for_range_total {St} (P : nat → St → Prop) (body : nat → St → result St)
    (start n : nat) (s : St) :
  P start s →
  (∀ k t, (start ≤ k < start + n)%nat → P k t → ∃ t', body k t = Ok t' ∧ P (S k) t') →
  ∃ s', for_range start n body s = Ok s' ∧ P (start + n)%nat s'.
Proof.
  revert start s. induction n as [|n IH]; intros start s H0 Hstep; simpl.
  - exists s. by rewrite Nat.add_0_r.
  - destruct (Hstep start s) as (t' & -> & Ht'); [lia|done|]. simpl.
    replace (start + S n)%nat with (S start + n)%nat by lia.
    apply IH; [done|]. intros k t ?. apply Hstep. lia.
Qed.

(** ** Sorting a set, ranks and the renumbering dict *)

Lemma elem_of_referenced (conns : list (list Z)) (n : Z) :
  n ∈ referenced conns ↔ ∃ c, c ∈ conns ∧ n ∈ c.
Proof.
  unfold referenced. rewrite elem_of_union_list. split.
  - intros (X & HX & Hn). apply list_elem_of_fmap in HX as (c & -> & Hc).
    exists c. split; [done|]. by apply elem_of_list_to_set in Hn.
  - intros (c & Hc & Hn). exists (list_to_set c). split.
    + apply list_elem_of_fmap. eauto.
    + by apply elem_of_list_to_set.
Qed.

Lemma referenced_app (cs1 cs2 : list (list Z)) :
  referenced (cs1 ++ cs2) = referenced cs1 ∪ referenced cs2.
Proof.
  apply set_eq. intros n. rewrite elem_of_union, !elem_of_referenced.
  split.
  - intros (c & [Hc|Hc]%elem_of_app & Hn); eauto.
  - intros [(c & Hc & Hn)|(c & Hc & Hn)]; exists c; rewrite elem_of_app; eauto.
Qed.

Lemma referenced_perm (cs1 cs2 : list (list Z)) :
  cs1 ≡ₚ cs2 → referenced cs1 = referenced cs2.
Proof.
  intros Hp. apply set_eq. intros n. rewrite !elem_of_referenced.
  by setoid_rewrite Hp.
Qed.

Lemma le_sorted_strict (l : list Z) :
  StronglySorted Z.le l → NoDup l → StronglySorted Z.lt l.
Proof.
  induction 1 as [|x l Hl IH Hx]; intros Hnd; [constructor|].
  apply NoDup_cons in Hnd as [Hnx Hnd]. constructor; [by apply IH|].
  rewrite Forall_forall in Hx |- *. intros y Hy.
  assert (x ≠ y) by (intros ->; done). specialize (Hx y Hy). lia.
Qed.

Lemma lt_sorted_le (l : list Z) : StronglySorted Z.lt l → StronglySorted Z.le l.
Proof.
  induction 1 as [|x l Hl IH Hx]; constructor; [done|].
  eapply Forall_impl; [done|]. intros; simpl in *; lia.
Qed.

Lemma lt_sorted_NoDup (l : list Z) : StronglySorted Z.lt l → NoDup l.
Proof.
  induction 1 as [|x l Hl IH Hx]; constructor; [|done].
  intros Hin. rewrite Forall_forall in Hx. specialize (Hx x Hin). lia.
Qed.

Lemma rank_lookup (l : list Z) (i : nat) (o : Z) :
  StronglySorted Z.lt l → l !! i = Some o → rank l o = Z.of_nat i.
Proof.
  unfold rank. intros Hs. revert i.
  induction Hs as [|x l Hl IH Hx]; intros i Hi; [done|].
  destruct i as [|i]; simpl in Hi.
  - injection Hi as ->. rewrite filter_cons_False by lia.
    replace (filter (λ y, y < o) l) with (@nil Z); [done|].
    symmetry. clear IH Hl. induction l as [|y l IHl]; [done|].
    apply Forall_cons in Hx as [Hy Hx].
    rewrite filter_cons_False by lia. by apply IHl.
  - assert (x < o).
    { rewrite Forall_forall in Hx. apply Hx. by eapply list_elem_of_lookup_2. }
    rewrite filter_cons_True by done. simpl. rewrite Nat2Z.inj_succ.
    rewrite (IH i Hi). lia.
Qed.

Lemma enumerate_skip (l : list Z) (start : Z) (m : gmap Z Z) (o : Z) :
  o ∉ l →
  foldl (λ m io, <[io.2 := io.1]> m) m (enumerate_from start l) !! o = m !! o.
Proof.
  revert start m. induction l as [|x l IH]; intros start m Ho; [done|].
  apply not_elem_of_cons in Ho as [Hne Ho]. simpl.
  rewrite IH by done. by rewrite lookup_insert_ne.
Qed.

Lemma enumerate_lookup (l : list Z) (start : Z) (m : gmap Z Z) (i : nat) (o : Z) :
  NoDup l → l !! i = Some o →
  foldl (λ m io, <[io.2 := io.1]> m) m (enumerate_from start l) !! o
  = Some (start + Z.of_nat i).
Proof.
  revert start m i. induction l as [|x l IH]; intros start m i Hnd Hi; [done|].
  apply NoDup_cons in Hnd as [Hx Hnd]. destruct i as [|i]; simpl in *.
  - injection Hi as ->. rewrite enumerate_skip by done.
    rewrite lookup_insert_eq. f_equal. lia.
  - rewrite (IH _ _ i) by done. f_equal. lia.
Qed.

Lemma old2new_lookup (used : list Z) (i : nat) (o : Z) :
  NoDup used → used !! i = Some o → old2new_of used !! o = Some (Z.of_nat i).
Proof. intros. unfold old2new_of, enumerate. by erewrite enumerate_lookup. Qed.

Lemma old2new_rank (used : list Z) (o : Z) :
  StronglySorted Z.lt used → o ∈ used →
  dict_index (old2new_of used) o = Ok (rank used o).
Proof.
  intros Hs Ho. apply list_elem_of_lookup in Ho as [i Hi]. unfold dict_index.
  rewrite (old2new_lookup used i) by eauto using lt_sorted_NoDup.
  simpl. by rewrite (rank_lookup used i).
Qed.

Lemma rank_bounds (used : list Z) (o : Z) :
  StronglySorted Z.lt used → o ∈ used →
  0 ≤ rank used o < Z.of_nat (length used) ∧
  used !! Z.to_nat (rank used o) = Some o.
Proof.
  intros Hs Ho. apply list_elem_of_lookup in Ho as [i Hi].
  rewrite (rank_lookup used i) by done. rewrite Nat2Z.id.
  apply lookup_lt_Some in Hi as Hlt. split; [lia|done].
Qed.

Section SortedSet.
Context (iter : gset Z → list Z).
Hypothesis iter_perm : ∀ s, iter s ≡ₚ elements s.

Lemma sorted_perm (used : gset Z) : sorted iter used ≡ₚ elements used.
Proof. unfold sorted. by rewrite merge_sort_Permutation. Qed.

Lemma elem_of_sorted (used : gset Z) (x : Z) :
  x ∈ sorted iter used ↔ x ∈ used.
Proof. by rewrite sorted_perm, elem_of_elements. Qed.

Lemma sorted_lt (used : gset Z) : StronglySorted Z.lt (sorted iter used).
Proof.
  apply le_sorted_strict.
  - apply (StronglySorted_merge_sort Z.le).
  - rewrite sorted_perm. apply NoDup_elements.
Qed.

(** The sorted sequence is the only ascending sequence with the members
    of the set. *)
Lemma sorted_unique (used : gset Z) (l : list Z) :
  StronglySorted Z.lt l → (∀ x, x ∈ l ↔ x ∈ used) → l = sorted iter used.
Proof.
  intros Hl Hmem. apply (StronglySorted_unique Z.le).
  - by apply lt_sorted_le.
  - apply lt_sorted_le, sorted_lt.
  - apply NoDup_Permutation.
    + by apply lt_sorted_NoDup.
    + apply lt_sorted_NoDup, sorted_lt.
    + intros x. by rewrite Hmem, elem_of_sorted.
Qed.
End SortedSet.

Lemma sorted_iter_irrelevant (iter1 iter2 : gset Z → list Z) (used : gset Z) :
  (∀ s, iter1 s ≡ₚ elements s) → (∀ s, iter2 s ≡ₚ elements s) →
  sorted iter1 used = sorted iter2 used.
Proof.
  intros H1 H2. apply sorted_unique; [done|by apply sorted_lt|].
  intros x. by apply elem_of_sorted.
Qed.

(** ** The collecting loops *)

Lemma for_each_collect (step : list Z → collected → result collected)
    (P : list Z → Prop) `{!∀ e, Decision (P e)} (c : list Z → list Z)
    (elems : list (list Z)) (u : gset Z) (cs : list (list Z)) (ts : list Z) :
  (∀ e u cs ts, P e → ∃ t, type_code e = Some t ∧
     step e (u, cs, ts) = Ok (u ∪ list_to_set (c e), cs ++ [c e], ts ++ [t])) →
  (∀ e acc, ¬ P e → step e acc = Ok acc) →
  for_each elems step (u, cs, ts)
  = Ok (u ∪ referenced (c <$> filter P elems),
        cs ++ (c <$> filter P elems),
        ts ++ omap type_code (filter P elems)).
Proof.
  intros Hkeep Hskip. revert u cs ts.
  induction elems as [|e elems IH]; intros u cs ts; simpl.
  - unfold referenced. simpl. by rewrite (right_id_L ∅ (∪)), !app_nil_r.
  - destruct (decide (P e)) as [HP|HP].
    + destruct (Hkeep e u cs ts HP) as (t & Ht & ->). simpl. rewrite IH.
      rewrite filter_cons_True by done. simpl. rewrite Ht.
      unfold referenced. simpl. rewrite (assoc_L (∪)). by rewrite <- !app_assoc.
    + rewrite (Hskip e _ HP). simpl. rewrite IH.
      by rewrite filter_cons_False by done.
Qed.

Lemma surface_collect (elems : list (list Z)) :
  let kept := filter surface_eligible elems in
  for_each elems surface_step (∅, [], [])
  = Ok (referenced (drop 1 <$> kept), drop 1 <$> kept, omap type_code kept).
Proof.
  intros kept. rewrite (for_each_collect _ surface_eligible (drop 1)).
  - by rewrite (left_id_L ∅ (∪)).
  - intros [|t nodes] u cs ts [[=]|[=]]; subst; eexists; (split; [done|]);
      reflexivity.
  - intros [|t nodes] [[u cs] ts] Hn; [done|]. simpl.
    destruct (decide (t = 5 ∨ t = 9)) as [[->| ->]|]; [| |done];
      destruct Hn; unfold surface_eligible; simpl; eauto.
Qed.

Lemma line_collect (elems : list (list Z)) :
  let kept := filter line_eligible elems in
  for_each elems line_step (∅, [], [])
  = Ok (referenced (take 2 ∘ drop 1 <$> kept), take 2 ∘ drop 1 <$> kept,
        omap type_code kept).
Proof.
  intros kept. rewrite (for_each_collect _ line_eligible (take 2 ∘ drop 1)).
  - by rewrite (left_id_L ∅ (∪)).
  - intros [|t [|a [|b nodes]]] u cs ts [[=] Hlen]; simpl in Hlen; try lia.
    subst. exists 3. split; [done|]. reflexivity.
  - intros [|t nodes] [[u cs] ts] Hn; [done|]. simpl.
    destruct (decide (t = 3)) as [->|]; [|done].
    destruct nodes as [|a [|b nodes]]; try done.
    destruct Hn. split; [done|]. simpl. lia.
Qed.

(** ** The renumbering after the loop *)

Lemma zip_with_fmap_same {A B C D} (f : B → C → D) (g : A → B) (h : A → C)
    (l : list A) :
  zip_with f (g <$> l) (h <$> l) = (λ x, f (g x) (h x)) <$> l.
Proof. induction l as [|x l IH]; csimpl; [done|]. by f_equal. Qed.

Lemma omap_type_code (l : list (list Z)) :
  Forall (λ e, is_Some (type_code e)) l →
  omap type_code l = (λ e, default 0 (type_code e)) <$> l.
Proof.
  induction 1 as [|e l [t Ht] Hl IH]; csimpl; [done|]. rewrite Ht. csimpl.
  by f_equal.
Qed.

Section Compaction.
Context {F : Type} (iter : gset Z → list Z).
Hypothesis iter_perm : ∀ s, iter s ≡ₚ elements s.

Lemma build_surface_compacted_eq (pts : list (list F)) (elems : list (list Z)) :
  let kept := filter surface_eligible elems in
  build_surface_compacted iter pts elems
  = compact_tail iter pts (referenced (drop 1 <$> kept)) (drop 1 <$> kept)
      (omap type_code kept).
Proof.
  intros kept. unfold build_surface_compacted.
  by rewrite surface_collect.
Qed.

Lemma build_boundary_compacted_2d_eq (pts : list (list F))
    (elems : list (list Z)) :
  let kept := filter line_eligible elems in
  build_boundary_compacted_2d iter pts elems
  = compact_tail iter pts (referenced (take 2 ∘ drop 1 <$> kept))
      (take 2 ∘ drop 1 <$> kept) (omap type_code kept).
Proof.
  intros kept. unfold build_boundary_compacted_2d.
  by rewrite line_collect.
Qed.

Lemma compact_tail_None (pts : list (list F)) used conns ctypes :
  compact_tail iter pts used conns ctypes = Ok None ↔ conns = [].
Proof.
  unfold compact_tail. destruct conns as [|c conns]; [done|]. split; [|done].
  intros H. inv_ok H. done.
Qed.

Lemma remap_rank (used : gset Z) (conns : list (list Z)) :
  (∀ c n, c ∈ conns → n ∈ c → n ∈ used) →
  remap (old2new_of (sorted iter used)) conns
  = Ok ((λ c : list Z, rank (sorted iter used) <$> c) <$> conns).
Proof.
  intros Hcov. unfold remap. apply map_result_fmap. intros c Hc.
  apply map_result_fmap. intros n Hn. apply old2new_rank.
  - by apply sorted_lt.
  - apply elem_of_sorted; eauto.
Qed.

Lemma compact_tail_Some (pts : list (list F)) used conns ctypes ug :
  (∀ c n, c ∈ conns → n ∈ c → n ∈ used) →
  compact_tail iter pts used conns ctypes = Ok (Some ug) →
  conns ≠ [] ∧
  Forall2 (λ o p, ∃ row, np_index pts o = Ok row ∧ vtk_point row = Ok p)
    (sorted iter used) (ug_points ug) ∧
  ug_cells ug
  = zip_with (λ conn ct, (ct, conn))
      ((λ c : list Z, rank (sorted iter used) <$> c) <$> conns) ctypes.
Proof.
  intros Hcov H. unfold compact_tail in H.
  destruct conns as [|c conns]; [done|]. split; [done|].
  set (cs := c :: conns) in *. rewrite remap_rank in H by done.
  inv_ok H. subst ug. unfold build_ugrid in Ha1. inv_ok Ha1. subst a1.
  simpl in Ha0. injection Ha0 as <-. simpl. split; [|done].
  apply map_result_Ok in Ha, Ha2.
  revert Ha2. generalize a2. induction Ha; intros pts'; inversion 1; subst;
    constructor; eauto.
Qed.

Lemma compact_tail_total (pts : list (list F)) used conns ctypes :
  conns ≠ [] →
  (∀ c n, c ∈ conns → n ∈ c → n ∈ used) →
  (∀ o, o ∈ used → ∃ row, np_index pts o = Ok row ∧ (3 ≤ length row)%nat) →
  ∃ ug, compact_tail iter pts used conns ctypes = Ok (Some ug).
Proof.
  intros Hne Hcov Hrows. unfold compact_tail.
  destruct conns as [|c conns]; [done|]. set (cs := c :: conns) in *.
  rewrite remap_rank by done.
  assert (∃ rows, np_take pts (sorted iter used) = Ok rows ∧
                  Forall (λ row, (3 ≤ length row)%nat) rows) as (rows & -> & Hr).
  { unfold np_take.
    assert (Forall (λ o, o ∈ used) (sorted iter used)) as Hall.
    { apply Forall_forall. intros o. apply elem_of_sorted, iter_perm. }
    induction Hall as [|o l Ho Hl IH]; simpl; [by exists []|].
    destruct (Hrows o Ho) as (row & -> & Hrow).
    destruct IH as (rows & -> & Hr). simpl. eauto. }
  simpl. unfold build_ugrid.
  assert (∃ vs, map_result vtk_point rows = Ok vs) as [vs ->].
  { induction Hr as [|row rows Hrow Hr [vs IH]]; simpl; [by exists []|].
    rewrite IH. destruct row as [|x [|y [|z row]]]; simpl in Hrow; try lia.
    simpl. eauto. }
  simpl. eauto.
Qed.
End Compaction.

Lemma cells_of_kept (P : list Z → Prop) `{!∀ e, Decision (P e)}
    (c : list Z → list Z) (used : list Z) (elems : list (list Z)) :
  (∀ e, P e → is_Some (type_code e)) →
  zip_with (λ conn ct, (ct, conn))
    ((λ c0 : list Z, rank used <$> c0) <$> (c <$> filter P elems))
    (omap type_code (filter P elems))
  = (λ e, (default 0 (type_code e), rank used <$> c e)) <$> filter P elems.
Proof.
  intros HP. rewrite omap_type_code.
  - rewrite <- list_fmap_compose.
    apply (zip_with_fmap_same (λ (conn : list Z) (ct : Z), (ct, conn))
             (λ e, rank used <$> c e) (λ e, default 0 (type_code e))).
  - apply Forall_forall. intros e [He _]%list_elem_of_filter. by apply HP.
Qed.

Section CompactionSpec.
Context {F : Type} (iter : gset Z → list Z).
Hypothesis iter_perm : ∀ s, iter s ≡ₚ elements s.

Lemma compact_tail_points (pts : list (list F)) used conns ctypes :
  (∀ c n, c ∈ conns → n ∈ c → n ∈ used) →
  points_of (compact_tail iter pts used conns ctypes)
  = match conns with
    | [] => Ok None
    | _ =>
        let* local_pts := np_take pts (sorted iter used) in
        let* vtk_pts := map_result vtk_point local_pts in
        Ok (Some vtk_pts)
    end.
Proof.
  intros Hcov. unfold compact_tail. destruct conns as [|c conns]; [done|].
  rewrite remap_rank by done.
  destruct (np_take pts (sorted iter used)) as [rows|]; simpl; [|done].
  unfold build_ugrid. by destruct (map_result vtk_point rows).
Qed.

Lemma compact_tail_round_trip (pts : list (list F)) (P : list Z → Prop)
    `{!∀ e, Decision (P e)} (c : list Z → list Z) elems ug :
  (∀ e, P e → is_Some (type_code e)) →
  let kept := filter P elems in
  compact_tail iter pts (referenced (c <$> kept)) (c <$> kept)
    (omap type_code kept) = Ok (Some ug) →
  round_trip (sorted iter (referenced (c <$> kept))) (c <$> kept) ug.
Proof.
  intros HP kept Hug. apply compact_tail_Some in Hug as (_ & Hpts & Hcells);
    [|done|by intros c0 n ??; apply elem_of_referenced; eauto].
  set (used := sorted iter (referenced (c <$> kept))) in *.
  assert (length (ug_points ug) = length used) as Hlen
    by (symmetry; by eapply Forall2_length).
  split; [done|]. rewrite Hcells. unfold kept. rewrite cells_of_kept by done.
  apply Forall2_fmap, Forall_Forall2_diag, Forall_forall. intros e He. simpl.
  apply Forall2_fmap_r, Forall_Forall2_diag, Forall_forall. intros n Hn.
  assert (n ∈ used) as Hin.
  { apply elem_of_sorted; [done|]. apply elem_of_referenced.
    exists (c e). split; [|done]. by apply list_elem_of_fmap_2. }
  pose proof (sorted_lt iter iter_perm (referenced (c <$> kept))) as Hs.
  destruct (rank_bounds used n Hs Hin) as [Hb Hl]. rewrite Hlen.
  split; [|done]. pose proof (old2new_rank used n Hs Hin) as Ho.
  unfold dict_index in Ho. by apply of_option_Ok in Ho.
Qed.
End CompactionSpec.

Lemma surface_type_code (e : list Z) : surface_eligible e → is_Some (type_code e).
Proof. intros [->| ->]; eauto. Qed.

Lemma line_type_code (e : list Z) : line_eligible e → is_Some (type_code e).
Proof. intros [-> _]; eauto. Qed.

Section CompactionClaims.
Context {F : Type} (iter : gset Z → list Z).
Hypothesis iter_perm : ∀ s, iter s ≡ₚ elements s.

(** What both builders return, for the records [P] that the loop keeps
    and the node list [c e] that it takes from each. *)
Lemma compact_tail_spec (pts : list (list F)) (P : list Z → Prop)
    `{!∀ e, Decision (P e)} (c : list Z → list Z) (elems : list (list Z)) :
  (∀ e, P e → is_Some (type_code e)) →
  let kept := filter P elems in
  let used := sorted iter (referenced (c <$> kept)) in
  let r := compact_tail iter pts (referenced (c <$> kept)) (c <$> kept)
             (omap type_code kept) in
  (r = Ok None ↔ kept = []) ∧
  StronglySorted Z.lt used ∧
  (∀ n, n ∈ used ↔ ∃ e, e ∈ kept ∧ n ∈ c e) ∧
  (∀ ug, r = Ok (Some ug) →
     Forall2 (λ o p, ∃ row, np_index pts o = Ok row ∧ vtk_point row = Ok p)
       used (ug_points ug) ∧
     Forall2 (λ e cell, type_code e = Some cell.1 ∧ cell.2 = rank used <$> c e)
       kept (ug_cells ug)) ∧
  (kept ≠ [] →
   (∀ o, o ∈ used → ∃ row, np_index pts o = Ok row ∧ (3 ≤ length row)%nat) →
   ∃ ug, r = Ok (Some ug)).
Proof.
  intros HP kept used r.
  assert (∀ c0 n, c0 ∈ c <$> kept → n ∈ c0 → n ∈ referenced (c <$> kept))
    as Hcov by (intros c0 n ??; apply elem_of_referenced; eauto).
  split; [|split; [|split; [|split]]].
  - unfold r. rewrite compact_tail_None. split; [apply fmap_nil_inv|by intros ->].
  - by apply sorted_lt.
  - intros n. unfold used. rewrite elem_of_sorted by done.
    rewrite elem_of_referenced. split.
    + intros (c0 & (e & -> & He)%list_elem_of_fmap & Hn). eauto.
    + intros (e & He & Hn). exists (c e). split; [|done].
      by apply list_elem_of_fmap_2.
  - intros ug Hug. apply compact_tail_Some in Hug as (_ & Hpts & Hcells);
      [|done..]. split; [done|]. rewrite Hcells. unfold kept.
    rewrite cells_of_kept by done.
    apply Forall2_fmap_r, Forall_Forall2_diag, Forall_forall.
    intros e [He _]%list_elem_of_filter. simpl. split; [|done].
    destruct (HP e He) as [t Ht]. by rewrite Ht.
  - intros Hne Hrows. apply compact_tail_total; [done| |done|].
    + intros Hnil. apply Hne. by eapply fmap_nil_inv.
    + intros o Ho. apply Hrows. by apply elem_of_sorted.
Qed.
End CompactionClaims.

Lemma Forall2_impl_l {A B} (R R' : A → B → Prop) (l : list A) (k : list B) :
  Forall2 R l k → (∀ x y, x ∈ l → R x y → R' x y) → Forall2 R' l k.
Proof.
  induction 1 as [|x y l k HR Hlk IH]; intros Himp; constructor.
  - apply Himp; [left|done].
  - apply IH. intros x' y' Hx'. apply Himp. by right.
Qed.

Lemma np_index_nonneg {A} (l : list A) (i : Z) (x : A) :
  0 ≤ i → np_index l i = Ok x ↔ l !! Z.to_nat i = Some x.
Proof.
  intros Hi. unfold np_index, index.
  destruct (Z.leb_spec 0 i); [|lia]. destruct (Z.ltb_spec i (Z.of_nat (length l))); simpl.
  - apply of_option_Ok.
  - destruct (Z.ltb_spec i 0); [lia|]. rewrite andb_false_r.
    rewrite lookup_ge_None_2 by lia. done.
Qed.

Section CompactionTheorems.
Context {F : Type} (iter : gset Z → list Z).
Hypothesis iter_perm : ∀ s, iter s ≡ₚ elements s.

Lemma scenario_used :
  sorted iter (referenced (drop 1 <$>
    filter surface_eligible [[5; 0; 1; 2]; [9; 10; 11; 12; 13]]))
  = [0; 1; 2; 10; 11; 12; 13].
Proof.
  symmetry. apply sorted_unique; [done| |].
  - repeat (constructor; [|repeat (constructor; [lia|]); constructor]).
    constructor.
  - intros x.
    replace (referenced (drop 1 <$>
               filter surface_eligible [[5; 0; 1; 2]; [9; 10; 11; 12; 13]]))
      with (list_to_set (C := gset Z) [0; 1; 2; 10; 11; 12; 13])
      by (by vm_compute).
    by rewrite elem_of_list_to_set.
Qed.

(** C1. [build_surface_compacted] returns none exactly when no record is
    a triangle (5) or a quad (9). Otherwise its cells are those records,
    in order; its points are the rows of the referenced global indices,
    taken in ascending order of the index, each index once; every node
    index is replaced by its rank among them; and a mesh is returned as
    soon as those indices are rows of the point array. On the records
    [[5,0,1,2]] and [[9,10,11,12,13]] this gives the seven points
    0, 1, 2, 10, 11, 12, 13 and the cells [[0,1,2]] and [[3,4,5,6]]. *)
Theorem surface_compaction (pts : list (list F)) (elems : list (list Z)) :
  let kept := filter surface_eligible elems in
  let used := sorted iter (referenced (drop 1 <$> kept)) in
  (build_surface_compacted iter pts elems = Ok None ↔ kept = []) ∧
  StronglySorted Z.lt used ∧
  (∀ n, n ∈ used ↔ ∃ e, e ∈ kept ∧ n ∈ drop 1 e) ∧
  (∀ ug, build_surface_compacted iter pts elems = Ok (Some ug) →
     Forall2 (λ o p, ∃ row, np_index pts o = Ok row ∧ vtk_point row = Ok p)
       used (ug_points ug) ∧
     Forall2 (λ e cell,
         type_code e = Some cell.1 ∧ cell.2 = rank used <$> drop 1 e)
       kept (ug_cells ug)) ∧
  (kept ≠ [] →
   (∀ o, o ∈ used → ∃ row, np_index pts o = Ok row ∧ (3 ≤ length row)%nat) →
   ∃ ug, build_surface_compacted iter pts elems = Ok (Some ug)) ∧
  ((14 ≤ length pts)%nat → Forall (λ row, length row = 3%nat) pts →
   ∃ ug,
     build_surface_compacted iter pts [[5; 0; 1; 2]; [9; 10; 11; 12; 13]]
     = Ok (Some ug) ∧
     length (ug_points ug) = 7%nat ∧
     Forall2 (λ o p, ∃ x y z,
         pts !! Z.to_nat o = Some [x; y; z] ∧ p = (x, y, z))
       [0; 1; 2; 10; 11; 12; 13] (ug_points ug) ∧
     ug_cells ug = [(5, [0; 1; 2]); (9, [3; 4; 5; 6])]).
Proof.
  intros kept used. rewrite build_surface_compacted_eq.
  pose proof (compact_tail_spec iter iter_perm pts surface_eligible (drop 1)
                elems surface_type_code) as (H1 & H2 & H3 & H4 & H5).
  repeat (split; [done|]). clear H1 H2 H3 H4 H5.
  intros Hlen Hrows. rewrite build_surface_compacted_eq.
  pose proof (compact_tail_spec iter iter_perm pts surface_eligible (drop 1)
                [[5; 0; 1; 2]; [9; 10; 11; 12; 13]] surface_type_code)
    as (_ & _ & _ & Hmesh & Htotal).
  cbv zeta in Hmesh, Htotal. rewrite scenario_used in Hmesh, Htotal.
  assert (∀ o, o ∈ [0; 1; 2; 10; 11; 12; 13] →
            ∃ x y z, pts !! Z.to_nat o = Some [x; y; z]) as Hrow.
  { intros o Ho. assert (0 ≤ o < 14) as Hb.
    { repeat (apply elem_of_cons in Ho as [->|Ho]; [lia|]).
      by apply elem_of_nil in Ho. }
    destruct (lookup_lt_is_Some_2 pts (Z.to_nat o)) as [row Hl]; [lia|].
    rewrite Forall_forall in Hrows.
    pose proof (Hrows row (list_elem_of_lookup_2 _ _ _ Hl)) as Hr.
    destruct row as [|x [|y [|z [|]]]]; simpl in Hr; try lia. eauto. }
  destruct Htotal as [ug Hug]; [by vm_compute| |].
  { intros o Ho. destruct (Hrow o Ho) as (x & y & z & Hl).
    exists [x; y; z]. split; [|simpl; lia]. apply np_index_nonneg; [|done].
    repeat (apply elem_of_cons in Ho as [->|Ho]; [lia|]).
    by apply elem_of_nil in Ho. }
  exists ug. split; [done|]. destruct (Hmesh ug Hug) as [Hp Hc].
  split; [by rewrite <- (Forall2_length _ _ _ Hp)|]. split.
  - eapply Forall2_impl_l; [done|]. intros o p Ho (row & Hi & Hv).
    destruct (Hrow o Ho) as (x & y & z & Hl). exists x, y, z. split; [done|].
    apply np_index_nonneg in Hi.
    + rewrite Hl in Hi. injection Hi as <-. by injection Hv as <-.
    + repeat (apply elem_of_cons in Ho as [->|Ho]; [lia|]).
      by apply elem_of_nil in Ho.
  - inversion Hc as [|e1 c1 l1 k1 [Ht1 Hc1] Hc' E1 E2]; subst.
    inversion Hc' as [|e2 c2 l2 k2 [Ht2 Hc2] Hc'' E3 E4]; subst.
    inversion Hc''; subst. destruct c1 as [t1 n1], c2 as [t2 n2].
    simpl in *. injection Ht1 as <-. injection Ht2 as <-. by subst.
Qed.

(** C4 (as the code has it). [build_boundary_compacted_2d] keeps the
    records of type line (3) that carry at least two node indices, and no
    other: a line record with fewer is skipped without error. It takes
    exactly the first two node indices of each record that it keeps; the
    points and the renumbering are those of the surface variant
    (ascending referenced indices, ranks); and it returns none exactly
    when it keeps no record, which is also the case when all the line
    records are short. *)
Theorem line_compaction (pts : list (list F)) (elems : list (list Z)) :
  let kept := filter line_eligible elems in
  let used := sorted iter (referenced (take 2 ∘ drop 1 <$> kept)) in
  (build_boundary_compacted_2d iter pts elems = Ok None ↔ kept = []) ∧
  (∀ e, e ∈ kept ↔
     e ∈ elems ∧ ∃ a b rest, e = 3 :: a :: b :: rest ∧
                             take 2 (drop 1 e) = [a; b]) ∧
  (∀ e, e ∈ elems → type_code e = Some 3 →
     (e ∈ kept ↔ (2 ≤ length (drop 1 e))%nat)) ∧
  StronglySorted Z.lt used ∧
  (∀ n, n ∈ used ↔ ∃ e, e ∈ kept ∧ n ∈ take 2 (drop 1 e)) ∧
  (∀ ug, build_boundary_compacted_2d iter pts elems = Ok (Some ug) →
     Forall2 (λ o p, ∃ row, np_index pts o = Ok row ∧ vtk_point row = Ok p)
       used (ug_points ug) ∧
     Forall2 (λ e cell,
         cell.1 = 3 ∧ length cell.2 = 2%nat ∧
         cell.2 = rank used <$> take 2 (drop 1 e))
       kept (ug_cells ug)) ∧
  (kept ≠ [] →
   (∀ o, o ∈ used → ∃ row, np_index pts o = Ok row ∧ (3 ≤ length row)%nat) →
   ∃ ug, build_boundary_compacted_2d iter pts elems = Ok (Some ug)).
Proof.
  intros kept used. rewrite build_boundary_compacted_2d_eq.
  pose proof (compact_tail_spec iter iter_perm pts line_eligible
                (take 2 ∘ drop 1) elems line_type_code)
    as (H1 & H2 & H3 & H4 & H5).
  assert (∀ e, e ∈ kept → ∃ a b rest, e = 3 :: a :: b :: rest) as Hshape.
  { intros e [[Ht Hl] _]%list_elem_of_filter.
    destruct e as [|t [|a [|b rest]]]; simpl in Hl; try lia.
    injection Ht as ->. eauto. }
  split; [done|]. split; [|split; [|split; [done|split; [done|split; [|done]]]]].
  - intros e. unfold kept. rewrite list_elem_of_filter. split.
    + intros [He Hin]. split; [done|].
      destruct (Hshape e) as (a & b & rest & ->);
        [by apply list_elem_of_filter|]. by exists a, b, rest.
    + intros [Hin (a & b & rest & -> & _)]. split; [|done].
      split; [done|simpl; lia].
  - intros e Hin Ht. unfold kept. rewrite list_elem_of_filter.
    unfold line_eligible. rewrite length_drop. split.
    + intros [[_ Hl] _]. lia.
    + intros Hl. split; [|done]. split; [done|lia].
  - intros ug Hug. destruct (H4 ug Hug) as [Hp Hc]. split; [done|].
    eapply Forall2_impl_l; [done|]. intros e cell He [Ht ->].
    destruct (Hshape e He) as (a & b & rest & ->).
    by injection Ht as <-.
Qed.

(** C2. In a mesh returned by either builder, every index of every cell
    is a position in the compact point sequence, and [used] at that
    position is the global index that the input record had there:
    [used[old2new[n]] = n]. *)
Theorem compaction_round_trip (pts : list (list F)) (elems : list (list Z))
    (ug : ugrid F) :
  (build_surface_compacted iter pts elems = Ok (Some ug) →
   let conns := drop 1 <$> filter surface_eligible elems in
   round_trip (sorted iter (referenced conns)) conns ug) ∧
  (build_boundary_compacted_2d iter pts elems = Ok (Some ug) →
   let conns := take 2 ∘ drop 1 <$> filter line_eligible elems in
   round_trip (sorted iter (referenced conns)) conns ug).
Proof.
  split.
  - rewrite build_surface_compacted_eq. intros Hug conns.
    by apply (compact_tail_round_trip iter iter_perm pts surface_eligible
                (drop 1) elems ug surface_type_code).
  - rewrite build_boundary_compacted_2d_eq. intros Hug conns.
    by apply (compact_tail_round_trip iter iter_perm pts line_eligible
                (take 2 ∘ drop 1) elems ug line_type_code).
Qed.

Lemma compact_tail_iter_irrelevant (iter' : gset Z → list Z)
    (pts : list (list F)) used conns ctypes :
  (∀ s, iter' s ≡ₚ elements s) →
  compact_tail iter pts used conns ctypes
  = compact_tail iter' pts used conns ctypes.
Proof.
  intros Hiter'. unfold compact_tail.
  by rewrite (sorted_iter_irrelevant iter iter' used).
Qed.

Lemma compact_tail_points_perm (pts : list (list F)) (P : list Z → Prop)
    `{!∀ e, Decision (P e)} (c : list Z → list Z)
    (elems elems' : list (list Z)) :
  elems ≡ₚ elems' →
  points_of (compact_tail iter pts (referenced (c <$> filter P elems))
               (c <$> filter P elems) (omap type_code (filter P elems)))
  = points_of (compact_tail iter pts (referenced (c <$> filter P elems'))
                 (c <$> filter P elems') (omap type_code (filter P elems'))).
Proof.
  intros Hp.
  assert (c <$> filter P elems ≡ₚ c <$> filter P elems') as Hc
    by (by rewrite Hp).
  rewrite !(compact_tail_points iter iter_perm)
    by (intros c0 n ??; apply elem_of_referenced; eauto).
  rewrite (referenced_perm _ _ Hc).
  destruct (c <$> filter P elems) as [|c1 l1], (c <$> filter P elems')
    as [|c2 l2]; try done.
  - by apply Permutation_nil_cons in Hc.
  - symmetry in Hc. by apply Permutation_nil_cons in Hc.
Qed.

(** C8. Both builders are functions of their input: two runs agree, also
    when the sets are iterated in different orders; the compact points
    follow the ascending order of the referenced global indices, the only
    ascending sequence of them; and reordering the input records does not
    change the compact point sequence. *)
Theorem compaction_deterministic (iter' : gset Z → list Z)
    (pts : list (list F)) (elems elems' : list (list Z)) :
  (∀ s, iter' s ≡ₚ elements s) →
  build_surface_compacted iter pts elems
  = build_surface_compacted iter' pts elems ∧
  build_boundary_compacted_2d iter pts elems
  = build_boundary_compacted_2d iter' pts elems ∧
  (∀ (s : gset Z) (l : list Z),
     StronglySorted Z.lt l → (∀ x, x ∈ l ↔ x ∈ s) → sorted iter s = l) ∧
  (∀ ug, build_surface_compacted iter pts elems = Ok (Some ug) →
     Forall2 (λ o p, ∃ row, np_index pts o = Ok row ∧ vtk_point row = Ok p)
       (sorted iter (referenced (drop 1 <$> filter surface_eligible elems)))
       (ug_points ug)) ∧
  (∀ ug, build_boundary_compacted_2d iter pts elems = Ok (Some ug) →
     Forall2 (λ o p, ∃ row, np_index pts o = Ok row ∧ vtk_point row = Ok p)
       (sorted iter
          (referenced (take 2 ∘ drop 1 <$> filter line_eligible elems)))
       (ug_points ug)) ∧
  (elems ≡ₚ elems' →
   points_of (build_surface_compacted iter pts elems)
   = points_of (build_surface_compacted iter pts elems') ∧
   points_of (build_boundary_compacted_2d iter pts elems)
   = points_of (build_boundary_compacted_2d iter pts elems')).
Proof.
  intros Hiter'. split_and!.
  - rewrite (build_surface_compacted_eq iter), (build_surface_compacted_eq iter').
    by apply compact_tail_iter_irrelevant.
  - rewrite (build_boundary_compacted_2d_eq iter),
      (build_boundary_compacted_2d_eq iter').
    by apply compact_tail_iter_irrelevant.
  - intros s l Hl Hmem. symmetry. by apply sorted_unique.
  - intros ug. rewrite build_surface_compacted_eq. intros Hug.
    by apply (compact_tail_spec iter iter_perm pts surface_eligible (drop 1)
                elems surface_type_code).
  - intros ug. rewrite build_boundary_compacted_2d_eq. intros Hug.
    by apply (compact_tail_spec iter iter_perm pts line_eligible
                (take 2 ∘ drop 1) elems line_type_code).
  - intros Hp. rewrite !build_surface_compacted_eq,
      !build_boundary_compacted_2d_eq.
    split; by apply compact_tail_points_perm.
Qed.
End CompactionTheorems.

(** * The reader *)

(** ** Text *)

Lemma split_on_free (sep : ascii) (s : string) :
  free_of sep s → split_on sep s = [s].
Proof.
  induction s as [|c s IH]; simpl; [done|]. intros [Hc Hs].
  destruct (Ascii.eqb_spec c sep); [done|]. by rewrite IH.
Qed.

Lemma split_on_app (sep : ascii) (k rest : string) :
  free_of sep k →
  split_on sep (k ++ String sep rest)%string = k :: split_on sep rest.
Proof.
  induction k as [|c k IH]; simpl; intros Hk.
  - by rewrite Ascii.eqb_refl.
  - destruct Hk as [Hc Hk]. destruct (Ascii.eqb_spec c sep); [done|].
    by rewrite IH.
Qed.


Lemma value_field_none (s : string) :
  free_of "=" s → value_field s = Raise IndexError.
Proof. intros Hs. unfold value_field. by rewrite split_on_free. Qed.

(** ** [int] *)










(** ** [find] *)

Lemma find_Some (lines : list string) (key : string) (i : nat) :
  find lines key = Some i ↔
  ∃ l, lines !! i = Some l ∧ startswith key l = true ∧
       ∀ j l', lines !! j = Some l' → (j < i)%nat → startswith key l' = false.
Proof.
  unfold find. rewrite fmap_Some. split.
  - intros ([i' l] & H & ->). apply list_find_Some in H as (Hl & Hs & Hmin).
    exists l. repeat split; [done..|]. intros j l' Hj Hlt.
    specialize (Hmin j l' Hj Hlt). by destruct (startswith key l').
  - intros (l & Hl & Hs & Hmin). exists (i, l). split; [|done].
    apply list_find_Some. repeat split; [done..|]. intros j l' Hj Hlt.
    by rewrite (Hmin j l' Hj Hlt).
Qed.

Lemma find_None (lines : list string) (key : string) :
  find lines key = None ↔ ∀ l, l ∈ lines → startswith key l = false.
Proof.
  unfold find. rewrite fmap_None, list_find_None, Forall_forall.
  split; intros H l Hl; specialize (H l Hl); by destruct (startswith key l).
Qed.

(** ** Dicts in insertion order *)

Lemma dict_get_set {V} (k k' : string) (v : V) (d : list (string * V)) :
  dict_get k (dict_set k' v d) = if decide (k = k') then Some v else dict_get k d.
Proof.
  induction d as [|[k0 v0] d IH]; simpl.
  - done.
  - destruct (decide (k' = k0)) as [->|Hne]; simpl.
    + by destruct (decide (k = k0)).
    + destruct (decide (k = k0)) as [->|]; [|done].
      by rewrite decide_False by done.
Qed.

Lemma dict_set_keys {V} (k : string) (v : V) (d : list (string * V)) (x : string) :
  x ∈ (dict_set k v d).*1 ↔ x = k ∨ x ∈ d.*1.
Proof.
  induction d as [|[k0 v0] d IH]; simpl.
  - rewrite list_elem_of_singleton, elem_of_nil. tauto.
  - destruct (decide (k = k0)) as [->|Hne]; simpl;
      rewrite !elem_of_cons; [|rewrite IH]; tauto.
Qed.

Lemma dict_set_NoDup {V} (k : string) (v : V) (d : list (string * V)) :
  NoDup d.*1 → NoDup (dict_set k v d).*1.
Proof.
  induction d as [|[k0 v0] d IH]; simpl; intros Hnd.
  - apply NoDup_singleton.
  - apply NoDup_cons in Hnd as [Hk0 Hnd].
    destruct (decide (k = k0)) as [->|Hne]; simpl.
    + by apply NoDup_cons.
    + apply NoDup_cons. split; [|by apply IH].
      rewrite dict_set_keys. intros [->|?]; done.
Qed.

Lemma dict_set_elem {V} (k : string) (v : V) (d : list (string * V))
    (kv : string * V) :
  kv ∈ dict_set k v d → kv = (k, v) ∨ kv ∈ d.
Proof.
  induction d as [|[k0 v0] d IH]; simpl.
  - rewrite list_elem_of_singleton. auto.
  - destruct (decide (k = k0)) as [->|Hne]; rewrite !elem_of_cons;
      [|intros [?|[?|?]%IH]]; tauto.
Qed.

Lemma dict_get_snoc {V} (k : string) (d : list (string * V)) (b : string * V) :
  dict_get k (d ++ [b])
  = match dict_get k d with
    | Some v => Some v
    | None => if decide (k = b.1) then Some b.2 else None
    end.
Proof.
  induction d as [|[k0 v0] d IH]; simpl.
  - by destruct b.
  - by destruct (decide (k = k0)).
Qed.

Lemma store_blocks_get {V} (k : string) (m blocks : list (string * V)) :
  dict_get k (store_blocks m blocks)
  = match dict_get k (reverse blocks) with
    | Some v => Some v
    | None => dict_get k m
    end.
Proof.
  revert m. induction blocks as [|b blocks IH]; intros m; [done|].
  unfold store_blocks in *. simpl. rewrite IH, reverse_cons, dict_get_snoc.
  destruct (dict_get k (reverse blocks)); [done|]. rewrite dict_get_set.
  by destruct (decide (k = b.1)).
Qed.

Lemma store_blocks_NoDup {V} (m blocks : list (string * V)) :
  NoDup m.*1 → NoDup (store_blocks m blocks).*1.
Proof.
  revert m. induction blocks as [|b blocks IH]; intros m Hm; [done|].
  apply IH. by apply dict_set_NoDup.
Qed.

Lemma store_blocks_elem {V} (m blocks : list (string * V)) (kv : string * V) :
  kv ∈ store_blocks m blocks → kv ∈ m ∨ kv ∈ blocks.
Proof.
  revert m. induction blocks as [|[k v] blocks IH]; intros m; [auto|].
  intros [[->|H]%dict_set_elem|H]%IH; rewrite elem_of_cons; auto.
Qed.

(** ** The marker loop *)

Lemma marker_loop (lines : list string) (ndime : Z) (start n p : nat)
    (m : list (string * list (list Z))) :
  for_range start n (marker_step lines ndime) (p, m)
  = let* '(p', blocks) := marker_blocks lines ndime p n in
    Ok (p', store_blocks m blocks).
Proof.
  revert start p m. induction n as [|n IH]; intros start p m; simpl; [done|].
  destruct (read_marker lines ndime p) as [[[p' tag] elems]|e]; simpl; [|done].
  rewrite IH. by destruct (marker_blocks lines ndime p' n) as [[p'' blocks]|e].
Qed.

Lemma SU2_NNODES_lookup (t n : Z) :
  SU2_NNODES !! t = Some n ↔
  (t, n) ∈ [(3, 2); (5, 3); (9, 4); (10, 4); (12, 8); (13, 6); (14, 5)].
Proof.
  unfold SU2_NNODES. split.
  - apply elem_of_list_to_map_2.
  - apply elem_of_list_to_map_1. apply (bool_decide_unpack _). by vm_compute.
Qed.

Lemma VTK_TYPE_MAP_lookup (t ct : Z) :
  VTK_TYPE_MAP !! t = Some ct ↔ ct = t ∧ t ∈ [3; 5; 9; 10; 12; 13; 14].
Proof.
  unfold VTK_TYPE_MAP. split.
  - intros H%elem_of_list_to_map_2.
    repeat (apply elem_of_cons in H as [[= -> ->]|H];
            [split; [done|]; rewrite !elem_of_cons; tauto|]).
    by apply elem_of_nil in H.
  - intros [-> H]. 
    repeat (apply elem_of_cons in H as [->|H]; [done|]).
    by apply elem_of_nil in H.
Qed.

Lemma SU2_NNODES_pos (t n : Z) : SU2_NNODES !! t = Some n → 2 ≤ n.
Proof.
  intros H%SU2_NNODES_lookup.
  repeat (apply elem_of_cons in H as [[= -> ->]|H]; [lia|]).
  by apply elem_of_nil in H.
Qed.

Lemma marker_fix_type_code (ndime : Z) (e : list Z) :
  type_code (marker_fix ndime e) = type_code e.
Proof.
  unfold marker_fix. destruct (decide (ndime = 2)); [|done].
  destruct e as [|t nodes]; [done|].
  destruct (SU2_NNODES !! t) as [n|] eqn:Hn; [|done].
  apply SU2_NNODES_pos in Hn.
  replace (Z.to_nat (1 + n)) with (S (Z.to_nat n)) by lia. done.
Qed.

Lemma marker_elem_step_Ok (lines : list string) (ndime : Z) (k p : nat)
    (elems : list (list Z)) (s' : nat * list (list Z)) :
  marker_elem_step lines ndime k (p, elems) = Ok s' ↔
  ∃ parts, record_at lines p parts ∧
           s' = (S p, elems ++ [marker_fix ndime parts]).
Proof.
  unfold marker_elem_step, record_at, index.
  destruct (lines !! p) as [l|]; simpl.
  - destruct (map_result int (split l)) as [parts|e] eqn:Hm; simpl; split.
    + intros [= <-]. exists parts. split; [by exists l|done].
    + intros (parts' & (l' & [= <-] & Hm') & ->). rewrite Hm in Hm'.
      by injection Hm' as <-.
    + done.
    + intros (parts' & (l' & [= <-] & Hm') & _). by rewrite Hm in Hm'.
  - split; [done|]. by intros (parts' & (l' & [=] & _) & _).
Qed.

Lemma marker_elems_loop (lines : list string) (ndime : Z) (n start p : nat)
    (elems : list (list Z)) (q : nat) (elems' : list (list Z)) :
  for_range start n (marker_elem_step lines ndime) (p, elems) = Ok (q, elems') →
  q = (p + n)%nat ∧
  ∃ recs, length recs = n ∧
    (∀ j parts, recs !! j = Some parts → record_at lines (p + j) parts) ∧
    elems' = elems ++ (marker_fix ndime <$> recs).
Proof.
  revert start p elems. induction n as [|n IH]; intros start p elems; simpl.
  - intros [= <- <-]. split; [lia|]. exists []. by rewrite app_nil_r.
  - intros H. apply bind_Ok in H as (s1 & Hstep & H).
    apply (marker_elem_step_Ok lines ndime start) in Hstep as (parts0 & Hrec & ->).
    apply IH in H as (-> & recs & Hlen & Hrecs & ->).
    split; [lia|]. exists (parts0 :: recs). split; [by rewrite <- Hlen|]. split.
    + intros [|j] parts Hj; simpl in Hj.
      * injection Hj as <-. by rewrite Nat.add_0_r.
      * replace (p + S j)%nat with (S p + j)%nat by lia. by apply Hrecs.
    + by rewrite <- app_assoc.
Qed.

(** What one marker block consists of. *)
Lemma read_marker_Ok (lines : list string) (ndime : Z) (p p' : nat)
    (tag : string) (elems : list (list Z)) :
  read_marker lines ndime p = Ok (p', tag, elems) →
  ∃ l v ne recs,
    lines !! p = Some l ∧ value_field l = Ok v ∧ tag = strip v ∧
    int_value lines (S p) = Ok ne ∧
    length recs = Z.to_nat ne ∧ p' = (p + 2 + length recs)%nat ∧
    (∀ j parts, recs !! j = Some parts → record_at lines (p + 2 + j) parts) ∧
    elems = marker_fix ndime <$> recs.
Proof.
  unfold read_marker, index. intros H.
  apply bind_Ok in H as (l & Hl%of_option_Ok & H).
  apply bind_Ok in H as (v & Hv & H). apply bind_Ok in H as (ne & Hne & H).
  apply bind_Ok in H as ([q es] & Hloop & [= -> <- <-]).
  apply marker_elems_loop in Hloop as (-> & recs & Hlen & Hrecs & ->).
  exists l, v, ne, recs. split_and!; [done..|lia| |done].
  intros j parts Hj. replace (p + 2 + j)%nat with (S (S p) + j)%nat by lia.
  by apply Hrecs.
Qed.

(** ** The volume loop *)

Lemma volume_step_Ok (lines : list string) (ndime : Z) (i_elem k : nat)
    (conns : list (list Z)) (ctypes : list Z) (s' : list (list Z) * list Z) :
  volume_step lines ndime i_elem k (conns, ctypes) = Ok s' ↔
  ∃ parts, record_at lines (i_elem + 1 + k) parts ∧ parts ≠ [] ∧
    s' = if decide (recognized parts)
         then (conns ++ [(volume_of ndime parts).1],
               ctypes ++ [(volume_of ndime parts).2])
         else (conns, ctypes).
Proof.
  unfold volume_step, record_at, index.
  destruct (lines !! (i_elem + 1 + k)%nat) as [l|]; simpl;
    [|split; [done|by intros (? & (? & [=] & _) & _)]].
  destruct (map_result int (split l)) as [parts|e] eqn:Hm; simpl;
    [|split; [done|intros (? & (? & [= <-] & Hm') & _); by rewrite Hm in Hm']].
  assert (∀ t nodes,
    (match VTK_TYPE_MAP !! t with
     | Some ct => (conns ++ [volume_conn ndime t (t :: nodes)], ctypes ++ [ct])
     | None => (conns, ctypes)
     end)
    = if decide (recognized (t :: nodes))
      then (conns ++ [(volume_of ndime (t :: nodes)).1],
            ctypes ++ [(volume_of ndime (t :: nodes)).2])
      else (conns, ctypes)) as Heq.
  { intros t nodes. unfold volume_of. simpl.
    destruct (decide (recognized (t :: nodes))) as [Hr|Hr];
      unfold recognized in Hr; simpl in Hr;
      destruct (VTK_TYPE_MAP !! t) as [ct|] eqn:Ht.
    - by apply VTK_TYPE_MAP_lookup in Ht as [-> _].
    - by destruct Hr.
    - destruct Hr. eauto.
    - done. }
  destruct parts as [|t nodes]; simpl.
  - split; [done|]. intros (? & (? & [= <-] & Hm') & ? & _).
    rewrite Hm in Hm'. by injection Hm' as <-.
  - split.
    + intros H. exists (t :: nodes). repeat split; [by exists l|done|].
      rewrite <- Heq. by destruct (VTK_TYPE_MAP !! t); injection H.
    + intros (parts & (l' & [= <-] & Hm') & _ & ->). rewrite Hm in Hm'.
      injection Hm' as <-. rewrite <- Heq. by destruct (VTK_TYPE_MAP !! t).
Qed.

Lemma volume_loop (lines : list string) (ndime : Z) (i_elem n start : nat)
    (conns : list (list Z)) (ctypes : list Z) conns' ctypes' :
  for_range start n (volume_step lines ndime i_elem) (conns, ctypes)
  = Ok (conns', ctypes') →
  ∃ recs, length recs = n ∧
    (∀ j parts, recs !! j = Some parts →
       record_at lines (i_elem + 1 + start + j) parts ∧ parts ≠ []) ∧
    conns' = conns ++ ((volume_of ndime <$> filter recognized recs).*1) ∧
    ctypes' = ctypes ++ ((volume_of ndime <$> filter recognized recs).*2).
Proof.
  revert start conns ctypes. induction n as [|n IH]; intros start conns ctypes;
    simpl.
  - intros [= <- <-]. exists []. by rewrite !app_nil_r.
  - intros H. apply bind_Ok in H as (s1 & Hstep & H).
    apply (volume_step_Ok lines ndime i_elem start) in Hstep as (parts0 & Hrec & Hne & ->).
    assert (∀ recs j parts, 
      (∀ j parts, recs !! j = Some parts →
         record_at lines (i_elem + 1 + S start + j) parts ∧ parts ≠ []) →
      (parts0 :: recs) !! j = Some parts →
      record_at lines (i_elem + 1 + start + j) parts ∧ parts ≠ []) as Hcons.
    { intros recs [|j] parts Hrecs Hj; simpl in Hj.
      - injection Hj as <-. by rewrite Nat.add_0_r.
      - replace (i_elem + 1 + start + S j)%nat
          with (i_elem + 1 + S start + j)%nat by lia. by apply Hrecs. }
    destruct (decide (recognized parts0)) as [Hr|Hr];
      apply IH in H as (recs & Hlen & Hrecs & -> & ->);
      exists (parts0 :: recs); (split; [by rewrite <- Hlen|]);
      (split; [intros j parts; by apply Hcons|]).
    + rewrite filter_cons_True by done. csimpl. by rewrite <- !app_assoc.
    + by rewrite filter_cons_False by done.
Qed.

Lemma marker_blocks_elem (lines : list string) (ndime : Z) (n p p' : nat)
    (blocks : list (string * list (list Z))) (tag : string)
    (elems : list (list Z)) :
  marker_blocks lines ndime p n = Ok (p', blocks) → (tag, elems) ∈ blocks →
  ∃ q q', read_marker lines ndime q = Ok (q', tag, elems).
Proof.
  revert p blocks. induction n as [|n IH]; intros p blocks; simpl.
  - intros [= <- <-]. by intros ?%elem_of_nil.
  - intros H. apply bind_Ok in H as ([[q t] es] & Hm & H).
    apply bind_Ok in H as ([q' bs] & Hbs & [= <- <-]).
    intros [[= -> ->]|Hin]%elem_of_cons; [eauto|].
    by eapply IH.
Qed.

Lemma read_volume_Ok (lines : list string) (ndime : Z)
    (vol_conns : list (list Z)) (vol_ctypes : list Z) :
  read_volume lines ndime = Ok (vol_conns, vol_ctypes) →
  (find lines "NELEM" = None ∧ vol_conns = [] ∧ vol_ctypes = []) ∨
  ∃ i nelem recs,
    find lines "NELEM" = Some i ∧ int_value lines i = Ok nelem ∧
    length recs = Z.to_nat nelem ∧
    (∀ j parts, recs !! j = Some parts →
       record_at lines (i + 1 + j) parts ∧ parts ≠ []) ∧
    vol_conns = (volume_of ndime <$> filter recognized recs).*1 ∧
    vol_ctypes = (volume_of ndime <$> filter recognized recs).*2.
Proof.
  unfold read_volume. destruct (find lines "NELEM") as [i|].
  - intros H. apply bind_Ok in H as (nelem & Hn & H). right.
    apply volume_loop in H as (recs & Hlen & Hrecs & -> & ->).
    exists i, nelem, recs. split_and!; [done..| |done|done].
    intros j parts Hj. destruct (Hrecs j parts Hj) as [Hr ?]. split; [|done].
    by rewrite Nat.add_0_r in Hr.
  - intros [= <- <-]. by left.
Qed.

Lemma read_markers_eq (lines : list string) (ndime : Z) :
  read_markers lines ndime
  = let* i := of_option (find lines "NMARK") (RuntimeError "NMARK not found") in
    let* nmark := int_value lines i in
    let* '(_, blocks) := marker_blocks lines ndime (S i) (Z.to_nat nmark) in
    Ok (store_blocks [] blocks).
Proof.
  unfold read_markers. destruct (find lines "NMARK") as [i|]; simpl; [|done].
  destruct (int_value lines i) as [nmark|]; simpl; [|done].
  rewrite marker_loop.
  by destruct (marker_blocks lines ndime (S i) (Z.to_nat nmark)) as [[??]|].
Qed.

Lemma read_markers_Ok (lines : list string) (ndime : Z)
    (markers : list (string * list (list Z))) :
  read_markers lines ndime = Ok markers →
  ∃ i nmark p' blocks,
    find lines "NMARK" = Some i ∧ int_value lines i = Ok nmark ∧
    marker_blocks lines ndime (S i) (Z.to_nat nmark) = Ok (p', blocks) ∧
    markers = store_blocks [] blocks.
Proof.
  rewrite read_markers_eq. intros H.
  apply bind_Ok in H as (i & Hi%of_option_Ok & H).
  apply bind_Ok in H as (nmark & Hn & H).
  apply bind_Ok in H as ([p' blocks] & Hb & [= <-]).
  by exists i, nmark, p', blocks.
Qed.

Section ReaderLemmas.
Context {F : Type} (fzero : F) (parse_float : string → option F).

Lemma read_su2_Ok (raw : list string) ndime pts vol_conns vol_ctypes markers :
  read_su2 fzero parse_float raw
  = Ok (ndime, pts, vol_conns, vol_ctypes, markers) ↔
  read_ndime (filter_lines raw) = Ok ndime ∧
  read_points fzero parse_float (filter_lines raw) ndime = Ok pts ∧
  read_volume (filter_lines raw) ndime = Ok (vol_conns, vol_ctypes) ∧
  read_markers (filter_lines raw) ndime = Ok markers.
Proof.
  unfold read_su2. split.
  - intros H. apply bind_Ok in H as (nd & Hnd & H).
    apply bind_Ok in H as (ps & Hps & H).
    apply bind_Ok in H as ([vc vt] & Hv & H).
    apply bind_Ok in H as (ms & Hms & [= <- <- <- <- <-]). done.
  - intros (-> & H2 & H3 & H4). simpl. rewrite H2. simpl. rewrite H3. simpl.
    by rewrite H4.
Qed.

Lemma assign_slice_Ok (row : list F) (stop : Z) (xyz row' : list F) :
  length row = 3%nat → assign_slice row stop xyz = Ok row' →
  length row' = 3%nat ∧
  (stop = 2 → row' !! 2%nat = row !! 2%nat) ∧
  (stop = 2 ∨ stop = 3 → length xyz = Z.to_nat stop →
   take (Z.to_nat stop) row' = xyz).
Proof.
  intros Hrow. unfold assign_slice.
  set (n := length (slice_to stop row)).
  assert (n ≤ 3)%nat as Hn.
  { unfold n, slice_to. destruct (0 <=? stop); rewrite length_take; lia. }
  assert (stop = 2 ∨ stop = 3 → n = Z.to_nat stop) as Hstop.
  { unfold n, slice_to. intros [-> | ->]; simpl; rewrite length_take; lia. }
  assert (∀ pre, length pre = n →
    length (pre ++ drop n row) = 3%nat ∧
    (stop = 2 → (pre ++ drop n row) !! 2%nat = row !! 2%nat) ∧
    (stop = 2 ∨ stop = 3 → take (Z.to_nat stop) (pre ++ drop n row) = pre))
    as Hpre.
  { intros pre Hlen. split_and!.
    - rewrite length_app, length_drop. lia.
    - intros Hs. rewrite lookup_app_r by (rewrite Hlen, Hstop; auto; lia).
      rewrite Hlen, lookup_drop. f_equal. rewrite Hstop by auto. lia.
    - intros Hs. rewrite <- Hstop, <- Hlen by done. by rewrite take_app_length. }
  destruct (decide (length xyz = n)) as [Hlen|Hlen].
  - intros [= <-]. destruct (Hpre xyz Hlen) as (? & ? & ?). split_and!; auto.
  - destruct xyz as [|x [|??]]; [done| |done]. intros [= <-].
    destruct (Hpre (replicate n x)) as (? & ? & ?); [by rewrite length_replicate|].
    split_and!; [done..|]. intros Hs Hx. rewrite Hstop in Hlen by done.
    simpl in Hlen, Hx. lia.
Qed.
End ReaderLemmas.

Section PointLemmas.
Context {F : Type} (fzero : F) (parse_float : string → option F).

Lemma point_step_Ok (lines : list string) (ndime : Z) (i k : nat)
    (pts pts' : list (list F)) :
  point_step parse_float lines ndime i k pts = Ok pts' →
  pts !! k = Some [fzero; fzero; fzero] →
  ∃ row', pts' = <[k := row']> pts ∧ point_row fzero parse_float lines ndime i k row'.
Proof.
  unfold point_step, index. intros H Hk.
  apply bind_Ok in H as (l & Hl%of_option_Ok & H).
  apply bind_Ok in H as (xyz & Hxyz & H).
  apply bind_Ok in H as (row & Hrow%of_option_Ok & H).
  apply bind_Ok in H as (row' & Hrow' & [= <-]).
  rewrite Hk in Hrow. injection Hrow as <-.
  apply assign_slice_Ok in Hrow' as (Hlen & Hz & Hxy); [|done].
  exists row'. split; [done|]. split_and!; [done|by intros ->%Hz|].
  exists l. split; [done|]. intros Hd Hfields.
  assert (slice_to ndime (split l) = take (Z.to_nat ndime) (split l)) as Hs
    by (unfold slice_to; by destruct Hd as [-> | ->]).
  rewrite Hs in Hxyz. rewrite Hxy; [done|done|].
  apply map_result_Ok, Forall2_length in Hxyz.
  rewrite <- Hxyz, length_take. lia.
Qed.

Lemma read_points_Ok (lines : list string) (ndime : Z) (pts : list (list F)) :
  read_points fzero parse_float lines ndime = Ok pts →
  ∃ i npoin,
    find lines "NPOIN" = Some i ∧ int_value lines i = Ok npoin ∧
    0 ≤ npoin ∧ Z.of_nat (length pts) = npoin ∧
    ∀ k row, pts !! k = Some row → point_row fzero parse_float lines ndime i k row.
Proof.
  unfold read_points, np_zeros3. intros H.
  apply bind_Ok in H as (i & Hi%of_option_Ok & H).
  apply bind_Ok in H as (npoin & Hn & H).
  apply bind_Ok in H as (pts0 & H0 & H).
  destruct (Z.ltb_spec npoin 0) as [|Hpos]; [done|]. injection H0 as <-.
  exists i, npoin. set (N := Z.to_nat npoin) in *.
  cut (length pts = N ∧
       ∀ k row, pts !! k = Some row → point_row fzero parse_float lines ndime i k row).
  { intros [Hlen Hrows]. split_and!; [done..|lia|done]. }
  apply (for_range_inv (λ k ps,
           length ps = N ∧
           (∀ j row, (j < k)%nat → ps !! j = Some row →
                     point_row fzero parse_float lines ndime i j row) ∧
           (∀ j, (k ≤ j < N)%nat → ps !! j = Some [fzero; fzero; fzero])))
    in H as (Hlen & Hrows & _).
  - split; [lia|]. intros k row Hk. apply (Hrows k); [|done].
    apply lookup_lt_Some in Hk. lia.
  - split_and!; [by rewrite length_replicate|lia|].
    intros j Hj. apply lookup_replicate_2. lia.
  - intros k ps ps' Hk (Hlen & Hrows & Hzero) Hstep.
    apply point_step_Ok in Hstep as (row' & -> & Hrow'); [|apply Hzero; lia].
    split_and!.
    + by rewrite length_insert.
    + intros j row Hj. destruct (decide (j = k)) as [->|Hne].
      * rewrite list_lookup_insert_eq by lia. by intros [= <-].
      * rewrite list_lookup_insert_ne by done. apply Hrows. lia.
    + intros j Hj. rewrite list_lookup_insert_ne by lia. apply Hzero. lia.
Qed.
End PointLemmas.

(** ** Which exceptions the reader raises *)

Lemma raises_only_Ok {A} (P : exn → Prop) (a : A) : raises_only P (Ok a).
Proof. by intros e. Qed.

Lemma raises_only_Raise {A} (P : exn → Prop) (e : exn) :
  P e → raises_only P (@Raise A e).
Proof. by intros He e' [= <-]. Qed.

Lemma raises_only_bind {A B} (P : exn → Prop) (m : result A)
    (k : A → result B) :
  raises_only P m → (∀ a, raises_only P (k a)) → raises_only P (bind m k).
Proof.
  intros Hm Hk e [He|(a & _ & He)]%bind_Raise; [by apply Hm|by apply (Hk a)].
Qed.

Lemma raises_only_of_option {A} (P : exn → Prop) (o : option A) (e : exn) :
  P e → raises_only P (of_option o e).
Proof. intros He. destruct o; [apply raises_only_Ok|by apply raises_only_Raise]. Qed.

Lemma raises_only_map_result {A B} (P : exn → Prop) (f : A → result B)
    (xs : list A) :
  (∀ x, raises_only P (f x)) → raises_only P (map_result f xs).
Proof.
  intros Hf. induction xs as [|x xs IH]; simpl; [apply raises_only_Ok|].
  apply raises_only_bind; [done|]. intros y.
  apply raises_only_bind; [done|]. intros ys. apply raises_only_Ok.
Qed.

Lemma raises_only_for_range {St} (P : exn → Prop)
    (body : nat → St → result St) (start n : nat) (s : St) :
  (∀ k t, raises_only P (body k t)) → raises_only P (for_range start n body s).
Proof.
  intros Hb. revert start s. induction n as [|n IH]; intros start s; simpl.
  - apply raises_only_Ok.
  - apply raises_only_bind; [done|]. intros s'. apply IH.
Qed.

Create HintDb raises discriminated.

#[global] Hint Resolve raises_only_Ok raises_only_bind raises_only_of_option
  raises_only_map_result raises_only_for_range : raises.
#[global] Hint Extern 1 (malformed _) => (by left) || (by right) : raises.
#[global] Hint Extern 1 (raises_only _ (Raise _)) =>
  apply raises_only_Raise : raises.
#[global] Hint Extern 2 (raises_only _ (match ?x with _ => _ end)) =>
  destruct x : raises.

Lemma index_malformed {A} (l : list A) (i : nat) :
  raises_only malformed (index l i).
Proof. unfold index. auto with raises. Qed.

Lemma int_malformed (s : string) : raises_only malformed (int s).
Proof. unfold int. auto with raises. Qed.

Lemma value_field_malformed (l : string) : raises_only malformed (value_field l).
Proof. apply index_malformed. Qed.

#[global] Hint Resolve index_malformed int_malformed value_field_malformed
  : raises.

Lemma int_value_malformed (lines : list string) (i : nat) :
  raises_only malformed (int_value lines i).
Proof. unfold int_value. auto with raises. Qed.

#[global] Hint Resolve int_value_malformed : raises.

Lemma volume_step_malformed lines ndime i_elem k acc :
  raises_only malformed (volume_step lines ndime i_elem k acc).
Proof. unfold volume_step. destruct acc. auto 10 with raises. Qed.

Lemma read_marker_malformed lines ndime p :
  raises_only malformed (read_marker lines ndime p).
Proof.
  unfold read_marker.
  assert (∀ k acc, raises_only malformed (marker_elem_step lines ndime k acc))
    by (intros k []; unfold marker_elem_step; auto 10 with raises).
  auto 10 with raises.
Qed.

Lemma marker_step_malformed lines ndime k acc :
  raises_only malformed (marker_step lines ndime k acc).
Proof.
  unfold marker_step. destruct acc.
  pose proof read_marker_malformed. auto 10 with raises.
Qed.

Lemma read_volume_malformed lines ndime :
  raises_only malformed (read_volume lines ndime).
Proof.
  unfold read_volume. pose proof volume_step_malformed.
  destruct (find lines "NELEM"); auto 10 with raises.
Qed.

(** A section that starts with a [find]: either the keyword is absent and
    the section raises its "not found" error, or the keyword is there and
    anything raised is the error of a malformed record. *)
Lemma section_Raise {A} (lines : list string) (key msg : string)
    (k : nat → result A) (e : exn) :
  (∀ i, raises_only malformed (k i)) →
  (let* i := of_option (find lines key) (RuntimeError msg) in k i) = Raise e →
  find lines key = None ∧ e = RuntimeError msg ∨
  is_Some (find lines key) ∧ malformed e.
Proof.
  intros Hk. destruct (find lines key) as [i|]; simpl.
  - intros He. right. split; [eauto|]. by apply (Hk i).
  - intros [= <-]. by left.
Qed.

Lemma read_ndime_Raise (lines : list string) (e : exn) :
  read_ndime lines = Raise e →
  find lines "NDIME" = None ∧ e = RuntimeError "NDIME not found" ∨
  is_Some (find lines "NDIME") ∧ malformed e.
Proof. apply section_Raise. auto with raises. Qed.

Lemma read_markers_Raise (lines : list string) (ndime : Z) (e : exn) :
  read_markers lines ndime = Raise e →
  find lines "NMARK" = None ∧ e = RuntimeError "NMARK not found" ∨
  is_Some (find lines "NMARK") ∧ malformed e.
Proof.
  apply section_Raise. intros i. pose proof marker_step_malformed.
  auto 10 with raises.
Qed.

Section RaiseLemmas.
Context {F : Type} (fzero : F) (parse_float : string → option F).

Lemma point_step_malformed lines ndime i k (pts : list (list F)) :
  raises_only malformed (point_step parse_float lines ndime i k pts).
Proof.
  unfold point_step.
  assert (∀ s, raises_only malformed (float parse_float s))
    by (intros s; unfold float; auto with raises).
  assert (∀ row xyz : list F,
            raises_only malformed (assign_slice row ndime xyz)).
  { intros row xyz. unfold assign_slice. case_decide; [auto with raises|].
    destruct xyz as [|? [|??]]; auto with raises. }
  auto 10 with raises.
Qed.

Lemma read_points_Raise (lines : list string) (ndime : Z) (e : exn) :
  read_points fzero parse_float lines ndime = Raise e →
  find lines "NPOIN" = None ∧ e = RuntimeError "NPOIN not found" ∨
  is_Some (find lines "NPOIN") ∧ malformed e.
Proof.
  apply section_Raise. intros i. pose proof point_step_malformed.
  assert (∀ n, raises_only malformed (np_zeros3 fzero n))
    by (intros n; unfold np_zeros3; destruct (n <? 0); auto with raises).
  auto 10 with raises.
Qed.
End RaiseLemmas.

Lemma not_malformed_RuntimeError (msg : string) : ¬ malformed (RuntimeError msg).
Proof. by intros [[=]|[=]]. Qed.

Section ReaderTheorems.
Context {F : Type} (fzero : F) (parse_float : string → option F).

Lemma read_su2_Raise (raw : list string) (e : exn) :
  let lines := filter_lines raw in
  read_su2 fzero parse_float raw = Raise e ↔
  read_ndime lines = Raise e ∨
  ∃ ndime, read_ndime lines = Ok ndime ∧
    (read_points fzero parse_float lines ndime = Raise e ∨
     ∃ pts, read_points fzero parse_float lines ndime = Ok pts ∧
       (read_volume lines ndime = Raise e ∨
        ∃ vol, read_volume lines ndime = Ok vol ∧
               read_markers lines ndime = Raise e)).
Proof.
  intros lines. unfold read_su2. cbv zeta. fold lines. split.
  - intros H. apply bind_Raise in H as [H|(nd & Hnd & H)]; [by left|].
    right. exists nd. split; [done|].
    apply bind_Raise in H as [H|(pts & Hp & H)]; [by left|].
    right. exists pts. split; [done|].
    apply bind_Raise in H as [H|([vc vt] & Hv & H)]; [by left|].
    right. exists (vc, vt). split; [done|].
    by apply bind_Raise in H as [H|(ms & _ & [=])].
  - intros [H|(nd & Hnd & [H|(pts & Hp & [H|([vc vt] & Hv & H)])])].
    + by rewrite H.
    + rewrite Hnd. simpl. by rewrite H.
    + rewrite Hnd. simpl. rewrite Hp. simpl. by rewrite H.
    + rewrite Hnd. simpl. rewrite Hp. simpl. rewrite Hv. simpl.
      by rewrite H.
Qed.

(** C5 (as the code has it). A mandatory section that is absent always
    makes [read_su2] fail; the error that names a section, ["<KEY> not
    found"], is raised only for a mandatory section that is absent, and
    exactly when the lookup of that section is reached: everything read
    before it succeeded. Without [NELEM] there is no error from that
    section and the volume lists are empty. *)
Theorem missing_section (raw : list string) :
  let lines := filter_lines raw in
  let r := read_su2 fzero parse_float raw in
  (∀ key, key ∈ ["NDIME"; "NPOIN"; "NMARK"] → find lines key = None →
     ∃ e, r = Raise e) ∧
  (∀ msg, r = Raise (RuntimeError msg) →
     ∃ key, key ∈ ["NDIME"; "NPOIN"; "NMARK"] ∧
            msg = (key ++ " not found")%string ∧ find lines key = None) ∧
  (r = Raise (RuntimeError "NDIME not found") ↔ find lines "NDIME" = None) ∧
  (r = Raise (RuntimeError "NPOIN not found") ↔
     (∃ ndime, read_ndime lines = Ok ndime) ∧ find lines "NPOIN" = None) ∧
  (r = Raise (RuntimeError "NMARK not found") ↔
     (∃ ndime pts vol,
        read_ndime lines = Ok ndime ∧
        read_points fzero parse_float lines ndime = Ok pts ∧
        read_volume lines ndime = Ok vol) ∧
     find lines "NMARK" = None) ∧
  (find lines "NELEM" = None →
     (∀ ndime, read_volume lines ndime = Ok ([], [])) ∧
     ∀ ndime pts vol_conns vol_ctypes markers,
       r = Ok (ndime, pts, vol_conns, vol_ctypes, markers) →
       vol_conns = [] ∧ vol_ctypes = []).
Proof.
  intros lines r. subst lines r.
  assert (∀ msg, read_su2 fzero parse_float raw = Raise (RuntimeError msg) →
    read_ndime (filter_lines raw) = Raise (RuntimeError msg) ∧
      msg = "NDIME not found" ∧ find (filter_lines raw) "NDIME" = None ∨
    ∃ ndime, read_ndime (filter_lines raw) = Ok ndime ∧
      (msg = "NPOIN not found" ∧ find (filter_lines raw) "NPOIN" = None ∨
       ∃ pts vol, read_points fzero parse_float (filter_lines raw) ndime = Ok pts ∧
         read_volume (filter_lines raw) ndime = Ok vol ∧
         msg = "NMARK not found" ∧ find (filter_lines raw) "NMARK" = None)) as Hcases.
  { intros msg [H1|(nd & Hnd & [H2|(pts & Hpts & [H3|(vol & Hvol & H4)])])]
      %read_su2_Raise.
    - left. apply read_ndime_Raise in H1 as Hc.
      destruct Hc as [[? [= ->]]|[_ []%not_malformed_RuntimeError]]. done.
    - right. exists nd. split; [done|]. left.
      apply read_points_Raise in H2
        as [[? [= ->]]|[_ []%not_malformed_RuntimeError]]. done.
    - by apply read_volume_malformed, not_malformed_RuntimeError in H3.
    - right. exists nd. split; [done|]. right. exists pts, vol.
      apply read_markers_Raise in H4
        as [[? [= ->]]|[_ []%not_malformed_RuntimeError]]. done. }
  split_and!.
  - intros key Hkey Habs. destruct (read_su2 fzero parse_float raw) as [[[[[nd pts] vc] vt] ms]|e] eqn:Hr;
      [|by exists e]. exfalso.
    apply read_su2_Ok in Hr as (H1 & H2 & H3 & H4).
    apply bind_Ok in H1 as (i1 & Hi1%of_option_Ok & _).
    apply bind_Ok in H2 as (i2 & Hi2%of_option_Ok & _).
    apply bind_Ok in H4 as (i4 & Hi4%of_option_Ok & _).
    repeat (apply elem_of_cons in Hkey as [->|Hkey]; [congruence|]).
    by apply elem_of_nil in Hkey.
  - intros msg
      [(_ & -> & ?)|(nd & _ & [[-> ?]|(pts & vol & _ & _ & -> & ?)])]%Hcases.
    + exists "NDIME". split; [|done]. rewrite !elem_of_cons. auto.
    + exists "NPOIN". split; [|done]. rewrite !elem_of_cons. auto.
    + exists "NMARK". split; [|done]. rewrite !elem_of_cons. auto.
  - split.
    + by intros
        [(_ & _ & ?)|(nd & _ & [[[=] ?]|(pts & vol & _ & _ & [=] & ?)])]%Hcases.
    + intros Habs. apply read_su2_Raise. left. unfold read_ndime.
      by rewrite Habs.
  - split.
    + intros
        [(_ & [=] & ?)|(nd & ? & [[_ ?]|(pts & vol & _ & _ & [=] & ?)])]%Hcases.
      eauto.
    + intros [[nd Hnd] Habs]. apply read_su2_Raise. right. exists nd.
      split; [done|]. left. unfold read_points. by rewrite Habs.
  - split.
    + intros
        [(_ & [=] & ?)|(nd & ? & [[[=] ?]|(pts & vol & ? & ? & _ & ?)])]%Hcases.
      split; [|done]. by exists nd, pts, vol.
    + intros [(nd & pts & vol & Hnd & Hpts & Hvol) Habs].
      apply read_su2_Raise. right. exists nd. split; [done|]. right.
      exists pts. split; [done|]. right. exists vol. split; [done|].
      unfold read_markers. by rewrite Habs.
  - intros Habs. split.
    + intros ndime. unfold read_volume. by rewrite Habs.
    + intros nd pts vc vt ms (_ & _ & Hv & _)%read_su2_Ok.
      unfold read_volume in Hv. rewrite Habs in Hv.
      by injection Hv as <- <-.
Qed.
End ReaderTheorems.

Lemma dict_get_elem {V} (k : string) (v : V) (d : list (string * V)) :
  dict_get k d = Some v → (k, v) ∈ d.
Proof.
  induction d as [|[k0 v0] d IH]; simpl; [done|].
  destruct (decide (k = k0)) as [->|]; [intros [= ->]; left|right; auto].
Qed.

Lemma dict_get_skip {V} (k : string) (d1 d2 : list (string * V)) :
  k ∉ d1.*1 → dict_get k (d1 ++ d2) = dict_get k d2.
Proof.
  induction d1 as [|[k0 v0] d1 IH]; simpl; [done|].
  intros [? ?]%not_elem_of_cons. rewrite decide_False by done. auto.
Qed.

Lemma NoDup_keys_unique {V} (k : string) (v v' : V) (d : list (string * V)) :
  NoDup d.*1 → (k, v) ∈ d → (k, v') ∈ d → v = v'.
Proof.
  induction d as [|[k0 v0] d IH]; simpl; [by intros _ ?%elem_of_nil|].
  intros [Hk0 Hnd]%NoDup_cons H1 H2.
  assert (∀ w, (k0, w) ∈ d → False) as Hfresh.
  { intros w Hw. apply Hk0, list_elem_of_fmap. by exists (k0, w). }
  apply elem_of_cons in H1 as [H1|H1], H2 as [H2|H2]; simplify_eq.
  - done.
  - by destruct (Hfresh v').
  - by destruct (Hfresh v).
  - auto.
Qed.

Section ParserTheorems.
Context {F : Type} (fzero : F) (parse_float : string → option F).

(** C6. In a result of [read_su2] the number of points is the [NPOIN]
    count; every point has three coordinates; for dimension 2 the third
    one is zero; and when the dimension is 2 or 3 and the line of a point
    has at least that many fields, the first [dimension] coordinates of
    the point are the numbers of the first [dimension] fields. *)
Theorem point_parsing (raw : list string) ndime pts vol_conns vol_ctypes
    markers :
  read_su2 fzero parse_float raw
  = Ok (ndime, pts, vol_conns, vol_ctypes, markers) →
  let lines := filter_lines raw in
  ∃ i npoin,
    find lines "NPOIN" = Some i ∧ int_value lines i = Ok npoin ∧
    Z.of_nat (length pts) = npoin ∧
    ∀ k row, pts !! k = Some row →
      length row = 3%nat ∧
      (ndime = 2 → row !! 2%nat = Some fzero) ∧
      ∃ l, lines !! (i + 1 + k)%nat = Some l ∧
        (ndime = 2 ∨ ndime = 3 → (Z.to_nat ndime ≤ length (split l))%nat →
         map_result (float parse_float) (take (Z.to_nat ndime) (split l))
         = Ok (take (Z.to_nat ndime) row)).
Proof.
  intros (_ & Hp & _)%read_su2_Ok lines.
  apply read_points_Ok in Hp as (i & npoin & Hi & Hn & _ & Hlen & Hrows).
  exists i, npoin. split_and!; [done..|]. intros k row Hk.
  apply (Hrows k row Hk).
Qed.

(** C3 (as the code has it). With dimension 2 the node list of a volume
    element is cut after the expected count [n] of its type code, and so
    is that of a marker element whose own type code has an expected
    count: the first [n] node indices of the record are kept, exactly [n]
    when the record carries at least [n] and all of them when it carries
    fewer, without error. With any other dimension the integers after the
    type code are kept as they are, whatever their number. Every output
    is that of the record at its own place in the file: the volume
    elements follow the recognized records of the [NELEM] section in
    order, and the elements of a marker follow the lines of its block. *)
Theorem trailing_field_correction (raw : list string) ndime pts vol_conns
    vol_ctypes markers :
  read_su2 fzero parse_float raw
  = Ok (ndime, pts, vol_conns, vol_ctypes, markers) →
  let lines := filter_lines raw in
  (find lines "NELEM" = None ∧ vol_conns = [] ∨
   ∃ i nelem recs,
     find lines "NELEM" = Some i ∧ int_value lines i = Ok nelem ∧
     length recs = Z.to_nat nelem ∧
     (∀ j parts, recs !! j = Some parts →
        record_at lines (i + 1 + j) parts) ∧
     Forall2 (volume_trimmed ndime) (filter recognized recs) vol_conns ∧
     Forall2 (λ parts ct, type_code parts = Some ct)
       (filter recognized recs) vol_ctypes) ∧
  (∀ tag elems, (tag, elems) ∈ markers →
     ∃ q l v ne recs,
       lines !! q = Some l ∧ value_field l = Ok v ∧ tag = strip v ∧
       int_value lines (S q) = Ok ne ∧ length recs = Z.to_nat ne ∧
       (∀ j parts, recs !! j = Some parts →
          record_at lines (q + 2 + j) parts) ∧
       Forall2 (marker_trimmed ndime) recs elems).
Proof.
  intros (_ & _ & Hv & Hm)%read_su2_Ok lines. split.
  - apply read_volume_Ok in Hv
      as [(? & -> & _)|(i & nelem & recs & ? & ? & ? & Hrecs & -> & ->)];
      [by left|]. right. exists i, nelem, recs. split_and!; [done..| | |].
    + intros j parts Hj. by destruct (Hrecs j parts Hj).
    + rewrite <- list_fmap_compose.
      apply Forall2_fmap_r, Forall_Forall2_diag, Forall_forall.
      intros parts [Hrec _]%list_elem_of_filter. simpl.
      destruct parts as [|t nodes]; [done|]. unfold recognized in Hrec.
      simpl in Hrec. destruct Hrec as [ct Hct].
      apply VTK_TYPE_MAP_lookup in Hct as [_ Ht].
      assert (∃ n, SU2_NNODES !! t = Some n) as [n Hn].
      { repeat (apply elem_of_cons in Ht as [->|Ht]; [by eexists|]).
        by apply elem_of_nil in Ht. }
      exists t, nodes, n. unfold volume_conn. simpl.
      split_and!; [done..| |].
      * intros ->. rewrite decide_True by done.
        rewrite Hn, drop_0. split; [done|]. by rewrite length_take.
      * intros Hne. by rewrite decide_False by done.
    + rewrite <- list_fmap_compose.
      apply Forall2_fmap_r, Forall_Forall2_diag, Forall_forall.
      intros parts [Hrec _]%list_elem_of_filter. simpl.
      by destruct parts.
  - intros tag elems Hin.
    apply read_markers_Ok in Hm as (i & nmark & p' & blocks & _ & _ & Hb & ->).
    apply store_blocks_elem in Hin as [[]%elem_of_nil|Hin].
    destruct (marker_blocks_elem _ _ _ _ _ _ _ _ Hb Hin) as (q & q' & Hq).
    apply read_marker_Ok in Hq
      as (l & v & ne & recs & ? & ? & ? & ? & ? & _ & Hrecs & ->).
    exists q, l, v, ne, recs. split_and!; [done..|].
    apply Forall2_fmap_r, Forall_Forall2_diag, Forall_forall.
    intros parts _. unfold marker_trimmed, marker_fix. split_and!.
    + intros -> t nodes ->. rewrite decide_True by done. split.
      * intros n Hn. rewrite Hn. apply SU2_NNODES_pos in Hn as Hpos.
        replace (Z.to_nat (1 + n)) with (S (Z.to_nat n)) by lia.
        split; [done|]. simpl. by rewrite drop_0, length_take.
      * by intros ->.
    + intros ->. by destruct (decide (ndime = 2)).
    + intros Hne. by rewrite decide_False by done.
Qed.

(** C7. The volume lists hold exactly the records of the [NELEM] lines
    whose type code is one of the seven recognized ones, in order: no
    other type code appears among the cell types. A marker holds one
    element for every one of its [MARKER_ELEMS] lines, with the type code
    of the line, recognized or not. *)
Theorem two_stage_filtering (raw : list string) ndime pts vol_conns
    vol_ctypes markers :
  read_su2 fzero parse_float raw
  = Ok (ndime, pts, vol_conns, vol_ctypes, markers) →
  let lines := filter_lines raw in
  length vol_conns = length vol_ctypes ∧
  Forall (λ ct, ct ∈ [3; 5; 9; 10; 12; 13; 14]) vol_ctypes ∧
  (find lines "NELEM" = None ∧ vol_ctypes = [] ∨
   ∃ i nelem recs,
     find lines "NELEM" = Some i ∧ int_value lines i = Ok nelem ∧
     length recs = Z.to_nat nelem ∧
     (∀ j parts, recs !! j = Some parts →
        record_at lines (i + 1 + j) parts) ∧
     vol_ctypes = omap type_code (filter recognized recs)) ∧
  (∀ tag elems, (tag, elems) ∈ markers →
     ∃ q ne recs,
       int_value lines (S q) = Ok ne ∧ length recs = Z.to_nat ne ∧
       (∀ j parts, recs !! j = Some parts →
          record_at lines (q + 2 + j) parts) ∧
       elems = marker_fix ndime <$> recs ∧
       Forall2 (λ parts e, type_code e = type_code parts) recs elems).
Proof.
  intros (_ & _ & Hv & Hm)%read_su2_Ok lines. 
  assert (∀ recs : list (list Z),
    (∀ j parts, recs !! j = Some parts → parts ≠ []) →
    (volume_of ndime <$> filter recognized recs).*2
    = omap type_code (filter recognized recs)) as Htypes.
  { intros recs Hne. induction recs as [|parts recs IH]; [done|].
    assert (parts ≠ []) by (by apply (Hne 0%nat)).
    assert (∀ j ps, recs !! j = Some ps → ps ≠ [])
      by (intros j ps Hj; by apply (Hne (S j))).
    destruct (decide (recognized parts)).
    - rewrite filter_cons_True by done. csimpl.
      destruct parts as [|t nodes]; [done|]. csimpl. f_equal. by apply IH.
    - rewrite filter_cons_False by done. by apply IH. }
  split_and!.
  - apply read_volume_Ok in Hv
      as [(_ & -> & ->)|(i & nelem & recs & _ & _ & _ & _ & -> & ->)];
      [done|]. by rewrite !length_fmap.
  - apply read_volume_Ok in Hv
      as [(_ & _ & ->)|(i & nelem & recs & _ & _ & _ & Hrecs & _ & ->)];
      [done|].
    rewrite Htypes by (intros j parts Hj; by destruct (Hrecs j parts Hj)).
    apply Forall_forall. intros ct (parts & Hparts & Hct)%list_elem_of_omap.
    apply list_elem_of_filter in Hparts as [Hrec _].
    unfold recognized in Hrec. rewrite Hct in Hrec. destruct Hrec as [c Hc].
    by apply VTK_TYPE_MAP_lookup in Hc as [_ ?].
  - apply read_volume_Ok in Hv
      as [(? & _ & ->)|(i & nelem & recs & ? & ? & ? & Hrecs & _ & ->)];
      [by left|]. right. exists i, nelem, recs. split_and!; [done..| |].
    + intros j parts Hj. by destruct (Hrecs j parts Hj).
    + apply Htypes. intros j parts Hj. by destruct (Hrecs j parts Hj).
  - intros tag elems Hin.
    apply read_markers_Ok in Hm as (i & nmark & p' & blocks & _ & _ & Hb & ->).
    apply store_blocks_elem in Hin as [[]%elem_of_nil|Hin].
    destruct (marker_blocks_elem _ _ _ _ _ _ _ _ Hb Hin) as (q & q' & Hq).
    apply read_marker_Ok in Hq
      as (l & v & ne & recs & _ & _ & _ & Hne & Hlen & _ & Hrecs & ->).
    exists q, ne, recs. split_and!; [done..|].
    apply Forall2_fmap_r, Forall_Forall2_diag, Forall_forall.
    intros parts _. apply marker_fix_type_code.
Qed.

(** C10. [read_markers] fails only where reading a marker block fails:
    two blocks with one tag are no error. The dict it returns has one
    entry per tag, and the entry of a tag is the element list of the
    last block with that tag in the file; the element lists of earlier
    blocks with the tag are not in the dict. *)
Theorem duplicate_marker_tags (raw : list string) ndime pts vol_conns
    vol_ctypes markers :
  let lines := filter_lines raw in
  (read_markers lines ndime
   = let* i := of_option (find lines "NMARK")
                 (RuntimeError "NMARK not found") in
     let* nmark := int_value lines i in
     let* '(_, blocks) := marker_blocks lines ndime (S i) (Z.to_nat nmark) in
     Ok (store_blocks [] blocks)) ∧
  (read_su2 fzero parse_float raw
   = Ok (ndime, pts, vol_conns, vol_ctypes, markers) →
   ∃ i nmark p' blocks,
     find lines "NMARK" = Some i ∧ int_value lines i = Ok nmark ∧
     marker_blocks lines ndime (S i) (Z.to_nat nmark) = Ok (p', blocks) ∧
     NoDup markers.*1 ∧
     (∀ tag, dict_get tag markers = dict_get tag (reverse blocks)) ∧
     (∀ tag elems1 elems2 before between after,
        blocks = before ++ (tag, elems1) :: between ++ (tag, elems2) :: after →
        tag ∉ after.*1 →
        dict_get tag markers = Some elems2 ∧
        ∀ elems, (tag, elems) ∈ markers → elems = elems2)).
Proof.
  intros lines. split; [apply read_markers_eq|].
  intros (_ & _ & _ & Hm)%read_su2_Ok.
  apply read_markers_Ok in Hm as (i & nmark & p' & blocks & Hi & Hn & Hb & ->).
  exists i, nmark, p', blocks.
  assert (NoDup (store_blocks [] blocks).*1) as Hnd
    by (apply store_blocks_NoDup; constructor).
  assert (∀ tag, dict_get tag (store_blocks [] blocks)
                 = dict_get tag (reverse blocks)) as Hget.
  { intros tag. rewrite store_blocks_get.
    by destruct (dict_get tag (reverse blocks)). }
  split_and!; [done..|].
  intros tag elems1 elems2 before between after -> Hafter.
  assert (dict_get tag (store_blocks []
            (before ++ (tag, elems1) :: between ++ (tag, elems2) :: after))
          = Some elems2) as Hlast.
  { rewrite Hget, reverse_app, reverse_cons, reverse_app, reverse_cons.
    rewrite <- !app_assoc. rewrite dict_get_skip.
    - simpl. by rewrite decide_True.
    - by rewrite fmap_reverse, elem_of_reverse. }
  split; [done|]. intros elems Hin.
  eapply NoDup_keys_unique; [done..|]. by apply dict_get_elem.
Qed.

End ParserTheorems.

(** ** Examples *)

Example int_examples :
  int " 12 " = Ok 12 ∧ int "-7" = Ok (-7) ∧ int "1_000" = Ok 1000 ∧
  int "1__0" = Raise ValueError ∧ int "" = Raise ValueError ∧
  int "+ 5" = Raise ValueError ∧ int "0012" = Ok 12 ∧
  strip (String (ascii_of_nat 31) "3") = "3" ∧
  int (String (ascii_of_nat 31) "3") = Raise ValueError.
Proof. repeat split; reflexivity. Qed.

Example split_examples :
  split_on "=" "NDIME= 3" = ["NDIME"; " 3"] ∧
  split_on "=" "" = [""] ∧ split_on "=" "a==b" = ["a"; ""; "b"] ∧
  split "  5 0   1 2 " = ["5"; "0"; "1"; "2"] ∧ split "   " = [] ∧
  strip "  a b  " = "a b" ∧ strip "   " = "".
Proof. repeat split; reflexivity. Qed.

Example table_examples :
  VTK_TYPE_MAP !! 9 = Some 9 ∧ SU2_NNODES !! 12 = Some 8 ∧
  SU2_NNODES !! 4 = None ∧
  sorted elements ({[5; 1]} ∪ {[3; 1]}) = [1; 3; 5].
Proof. repeat split; vm_compute; reflexivity. Qed.

Example sample_file_read :
  read_su2 0 sample_float sample_file = Ok sample_result.
Proof. by vm_compute. Qed.

(** * Instances of the theorems *)

Lemma elements_perm (s : gset Z) : elements s ≡ₚ elements s.
Proof. reflexivity. Defined.

Lemma reverse_elements_perm (s : gset Z) :
  (reverse ∘ elements) s ≡ₚ elements s.
Proof. apply reverse_Permutation. Defined.

Lemma surface_compaction_witness :
  (∀ s : gset Z, elements s ≡ₚ elements s) ∧
  (14 ≤ length sample_pts)%nat ∧
  Forall (λ row, length row = 3%nat) sample_pts ∧
  ∃ ug,
    build_surface_compacted elements sample_pts sample_surface = Ok (Some ug) ∧
    length (ug_points ug) = 7%nat ∧
    Forall2 (λ o p, ∃ x y z,
        sample_pts !! Z.to_nat o = Some [x; y; z] ∧ p = (x, y, z))
      [0; 1; 2; 10; 11; 12; 13] (ug_points ug) ∧
    ug_cells ug = [(5, [0; 1; 2]); (9, [3; 4; 5; 6])].
Proof.
  assert ((14 ≤ length sample_pts)%nat) as Hlen by (vm_compute; lia).
  assert (Forall (λ row, length row = 3%nat) sample_pts) as Hrows
    by (apply (bool_decide_unpack _); vm_compute; reflexivity).
  split; [exact elements_perm|]. split; [exact Hlen|]. split; [exact Hrows|].
  exact (proj2 (proj2 (proj2 (proj2 (proj2
    (surface_compaction elements elements_perm sample_pts sample_surface)))))
    Hlen Hrows).
Defined.

Lemma line_compaction_witness :
  (∀ s : gset Z, elements s ≡ₚ elements s) ∧
  build_boundary_compacted_2d elements sample_pts sample_lines
  = Ok (Some sample_lines_mesh) ∧
  (∀ e, e ∈ filter line_eligible sample_lines ↔
     e ∈ sample_lines ∧ ∃ a b rest, e = 3 :: a :: b :: rest ∧
                                    take 2 (drop 1 e) = [a; b]) ∧
  [3; 1] ∈ sample_lines ∧ type_code [3; 1] = Some 3 ∧
  ([3; 1] ∈ filter line_eligible sample_lines ↔
   (2 ≤ length (drop 1 [3; 1]))%nat) ∧
  Forall2 (λ e cell,
      cell.1 = 3 ∧ length cell.2 = 2%nat ∧
      cell.2 = rank (sorted elements (referenced
                 (take 2 ∘ drop 1 <$> filter line_eligible sample_lines)))
               <$> take 2 (drop 1 e))
    (filter line_eligible sample_lines) (ug_cells sample_lines_mesh).
Proof.
  assert (build_boundary_compacted_2d elements sample_pts sample_lines
          = Ok (Some sample_lines_mesh)) as Hrun by (vm_compute; reflexivity).
  assert ([3; 1] ∈ sample_lines) as Hin by (right; left).
  assert (type_code [3; 1] = Some 3) as Ht by reflexivity.
  split; [exact elements_perm|]. split; [exact Hrun|].
  destruct (line_compaction elements elements_perm sample_pts sample_lines)
    as (_ & Hkept & Hshort & _ & _ & Hmesh & _).
  split; [exact Hkept|]. split; [exact Hin|]. split; [exact Ht|].
  split; [exact (Hshort _ Hin Ht)|].
  exact (proj2 (Hmesh sample_lines_mesh Hrun)).
Defined.

Lemma compaction_round_trip_witness :
  (∀ s : gset Z, elements s ≡ₚ elements s) ∧
  build_surface_compacted elements sample_pts sample_surface
  = Ok (Some sample_surface_mesh) ∧
  round_trip
    (sorted elements (referenced (drop 1 <$> filter surface_eligible sample_surface)))
    (drop 1 <$> filter surface_eligible sample_surface) sample_surface_mesh.
Proof.
  assert (build_surface_compacted elements sample_pts sample_surface
          = Ok (Some sample_surface_mesh)) as Hrun by (vm_compute; reflexivity).
  split; [exact elements_perm|]. split; [exact Hrun|].
  exact (proj1 (compaction_round_trip elements elements_perm sample_pts
                  sample_surface sample_surface_mesh) Hrun).
Defined.

Lemma compaction_deterministic_witness :
  (∀ s : gset Z, elements s ≡ₚ elements s) ∧
  (∀ s : gset Z, (reverse ∘ elements) s ≡ₚ elements s) ∧
  sample_lines ≡ₚ reverse sample_lines ∧
  build_boundary_compacted_2d elements sample_pts sample_lines
  = build_boundary_compacted_2d (reverse ∘ elements) sample_pts sample_lines ∧
  points_of (build_boundary_compacted_2d elements sample_pts sample_lines)
  = points_of (build_boundary_compacted_2d elements sample_pts
                 (reverse sample_lines)).
Proof.
  assert (sample_lines ≡ₚ reverse sample_lines) as Hperm
    by (symmetry; apply reverse_Permutation).
  split; [exact elements_perm|]. split; [exact reverse_elements_perm|].
  split; [exact Hperm|].
  destruct (compaction_deterministic elements elements_perm
              (reverse ∘ elements) sample_pts sample_lines
              (reverse sample_lines) reverse_elements_perm)
    as (_ & Hline & _ & _ & _ & Hpts).
  split; [exact Hline|]. exact (proj2 (Hpts Hperm)).
Defined.

Lemma point_parsing_witness :
  read_su2 0 sample_float sample_file = Ok sample_result ∧
  ∃ i npoin,
    find (filter_lines sample_file) "NPOIN" = Some i ∧
    int_value (filter_lines sample_file) i = Ok npoin ∧
    Z.of_nat (length sample_result.1.1.1.2) = npoin ∧
    ∀ k row, sample_result.1.1.1.2 !! k = Some row →
      length row = 3%nat ∧
      (2 = 2 → row !! 2%nat = Some 0) ∧
      ∃ l, filter_lines sample_file !! (i + 1 + k)%nat = Some l ∧
        (2 = 2 ∨ 2 = 3 → (Z.to_nat 2 ≤ length (split l))%nat →
         map_result (float sample_float) (take (Z.to_nat 2) (split l))
         = Ok (take (Z.to_nat 2) row)).
Proof.
  assert (read_su2 0 sample_float sample_file = Ok sample_result) as Hrun
    by (vm_compute; reflexivity).
  split; [exact Hrun|].
  exact (point_parsing 0 sample_float sample_file _ _ _ _ _ Hrun).
Defined.

Lemma trailing_field_correction_witness :
  read_su2 0 sample_float ragged_file = Ok ragged_result ∧
  (find (filter_lines ragged_file) "NELEM" = None ∧ ragged_result.1.1.2 = [] ∨
   ∃ i nelem recs,
     find (filter_lines ragged_file) "NELEM" = Some i ∧
     int_value (filter_lines ragged_file) i = Ok nelem ∧
     length recs = Z.to_nat nelem ∧
     (∀ j parts, recs !! j = Some parts →
        record_at (filter_lines ragged_file) (i + 1 + j) parts) ∧
     Forall2 (volume_trimmed 2) (filter recognized recs)
       [[0; 1; 2]; [0; 1]] ∧
     Forall2 (λ parts ct, type_code parts = Some ct)
       (filter recognized recs) [5; 9]) ∧
  ∃ q l v ne recs,
    filter_lines ragged_file !! q = Some l ∧ value_field l = Ok v ∧
    "wall" = strip v ∧
    int_value (filter_lines ragged_file) (S q) = Ok ne ∧
    length recs = Z.to_nat ne ∧
    (∀ j parts, recs !! j = Some parts →
       record_at (filter_lines ragged_file) (q + 2 + j) parts) ∧
    Forall2 (marker_trimmed 2) recs [[3; 0; 1]; [3; 2]; [99; 1; 2; 3]].
Proof.
  assert (read_su2 0 sample_float ragged_file = Ok ragged_result) as Hrun
    by (vm_compute; reflexivity).
  assert (("wall", [[3; 0; 1]; [3; 2]; [99; 1; 2; 3]]) ∈ ragged_result.2)
    as Hin by left.
  split; [exact Hrun|].
  destruct (trailing_field_correction 0 sample_float ragged_file _ _ _ _ _ Hrun)
    as [Hvol Hmark].
  split; [exact Hvol|]. exact (Hmark _ _ Hin).
Defined.

Lemma two_stage_filtering_witness :
  read_su2 0 sample_float sample_file = Ok sample_result ∧
  ("inlet", [[3; 1; 2]; [99; 4; 5; 6; 7]]) ∈ sample_result.2 ∧
  Forall (λ ct, ct ∈ [3; 5; 9; 10; 12; 13; 14]) sample_result.1.2 ∧
  ∃ q ne recs,
    int_value (filter_lines sample_file) (S q) = Ok ne ∧
    length recs = Z.to_nat ne ∧
    (∀ j parts, recs !! j = Some parts →
       record_at (filter_lines sample_file) (q + 2 + j) parts) ∧
    [[3; 1; 2]; [99; 4; 5; 6; 7]] = marker_fix 2 <$> recs ∧
    Forall2 (λ parts e, type_code e = type_code parts) recs
      [[3; 1; 2]; [99; 4; 5; 6; 7]].
Proof.
  assert (read_su2 0 sample_float sample_file = Ok sample_result) as Hrun
    by (vm_compute; reflexivity).
  assert (("inlet", [[3; 1; 2]; [99; 4; 5; 6; 7]]) ∈ sample_result.2) as Hin
    by (right; left).
  split; [exact Hrun|]. split; [exact Hin|].
  destruct (two_stage_filtering 0 sample_float sample_file _ _ _ _ _ Hrun)
    as (_ & Htypes & _ & Hmarkers).
  split; [exact Htypes|]. exact (Hmarkers _ _ Hin).
Defined.

Lemma duplicate_marker_tags_witness :
  read_su2 0 sample_float sample_file = Ok sample_result ∧
  ∃ i nmark p' blocks,
    find (filter_lines sample_file) "NMARK" = Some i ∧
    int_value (filter_lines sample_file) i = Ok nmark ∧
    marker_blocks (filter_lines sample_file) 2 (S i) (Z.to_nat nmark)
    = Ok (p', blocks) ∧
    NoDup sample_result.2.*1 ∧
    (∀ tag, dict_get tag sample_result.2 = dict_get tag (reverse blocks)) ∧
    (∀ tag elems1 elems2 before between after,
       blocks = before ++ (tag, elems1) :: between ++ (tag, elems2) :: after →
       tag ∉ after.*1 →
       dict_get tag sample_result.2 = Some elems2 ∧
       ∀ elems, (tag, elems) ∈ sample_result.2 → elems = elems2).
Proof.
  assert (read_su2 0 sample_float sample_file = Ok sample_result) as Hrun
    by (vm_compute; reflexivity).
  split; [exact Hrun|].
  exact (proj2 (duplicate_marker_tags 0 sample_float sample_file _ _ _ _ _)
           Hrun).
Defined.

Lemma missing_section_witness :
  find (filter_lines ["NDIME= 2"; "NPOIN= 0"]) "NMARK" = None ∧
  read_su2 0 sample_float ["NDIME= 2"; "NPOIN= 0"]
  = Raise (RuntimeError "NMARK not found").
Proof.
  assert (find (filter_lines ["NDIME= 2"; "NPOIN= 0"]) "NMARK" = None) as Habs
    by (vm_compute; reflexivity).
  split; [exact Habs|].
  destruct (missing_section 0 sample_float ["NDIME= 2"; "NPOIN= 0"])
    as (_ & _ & _ & _ & Hmark & _).
  apply Hmark. split; [|exact Habs].
  exists 2, [], ([], []). repeat split; vm_compute; reflexivity.
Defined.


(** * Where the code departs from the specification *)

(** C5, as stated, fails on a file whose [NDIME] value is not a number and
    that has no [NMARK] section: a mandatory section is absent, and the
    error is the [ValueError] of [int], which names no section. *)
Lemma missing_section_counterexample :
  find (filter_lines broken_file) "NMARK" = None ∧
  read_su2 0 sample_float broken_file = Raise ValueError ∧
  ¬ ((∃ key, key ∈ ["NDIME"; "NPOIN"; "NMARK"] ∧
             read_su2 0 sample_float broken_file
             = Raise (RuntimeError (key ++ " not found")%string)) ↔
     (∃ key, key ∈ ["NDIME"; "NPOIN"; "NMARK"] ∧
             find (filter_lines broken_file) key = None)).
Proof.
  assert (find (filter_lines broken_file) "NMARK" = None) as Habs
    by (by vm_compute).
  assert (read_su2 0 sample_float broken_file = Raise ValueError) as Hrun
    by (by vm_compute).
  split; [done|]. split; [done|]. intros [_ H].
  destruct H as (key & _ & Hkey).
  - exists "NMARK". split; [|done]. rewrite !elem_of_cons. auto.
  - rewrite Hrun in Hkey. discriminate Hkey.
Qed.

(** C3, as stated, fails on a 2D file with a record that carries fewer
    node indices than its type expects: the quad [9 0 1] is read without
    error and keeps two node indices, not four, and the line [3 2] of the
    marker keeps one, not two. *)
Lemma trailing_field_correction_counterexample :
  read_su2 0 sample_float ragged_file = Ok ragged_result ∧
  ragged_result.1.1.2 !! 1%nat = Some [0; 1] ∧
  ragged_result.1.2 !! 1%nat = Some 9 ∧ SU2_NNODES !! 9 = Some 4 ∧
  ¬ (∀ ndime pts vol_conns vol_ctypes markers,
       read_su2 0 sample_float ragged_file
       = Ok (ndime, pts, vol_conns, vol_ctypes, markers) →
       ndime = 2 →
       (∀ j conn ct n, vol_conns !! j = Some conn → vol_ctypes !! j = Some ct →
          SU2_NNODES !! ct = Some n → Z.of_nat (length conn) = n) ∧
       (∀ tag elems e t n, (tag, elems) ∈ markers → e ∈ elems →
          type_code e = Some t → SU2_NNODES !! t = Some n →
          Z.of_nat (length (drop 1 e)) = n)).
Proof.
  assert (read_su2 0 sample_float ragged_file = Ok ragged_result) as Hrun
    by (by vm_compute).
  split_and!; [done..|]. intros H.
  destruct (H _ _ _ _ _ Hrun eq_refl) as [Hvol _].
  by specialize (Hvol 1%nat [0; 1] 9 4 eq_refl eq_refl eq_refl).
Qed.

(** C4, as stated, fails on a marker whose only line record carries one
    node index: a record of type line exists, and the builder returns
    none. *)
Lemma line_compaction_counterexample :
  [3; 1] ∈ [[3; 1]] ∧ type_code [3; 1] = Some 3 ∧
  build_boundary_compacted_2d elements sample_pts [[3; 1]] = Ok None ∧
  ¬ (build_boundary_compacted_2d elements sample_pts [[3; 1]] = Ok None ↔
     ¬ ∃ e, e ∈ [[3; 1]] ∧ type_code e = Some 3).
Proof.
  assert (build_boundary_compacted_2d elements sample_pts [[3; 1]] = Ok None)
    as Hrun by (by vm_compute).
  split_and!; [by left|done|done|]. intros [H _]. apply (H Hrun).
  exists [3; 1]. split; [by left|done].
Qed.


(** * Further properties of the code *)

(** ** The line filter *)

Lemma lstrip_no_lead (s : string) :
  match lstrip s with
  | EmptyString => True
  | String c _ => is_space c = false
  end.
Proof.
  induction s as [|c s IH]; simpl; [done|].
  destruct (is_space c) eqn:Hc; [done|]. simpl. done.
Qed.

Lemma lstrip_fixed (s : string) :
  match s with
  | EmptyString => True
  | String c _ => is_space c = false
  end → lstrip s = s.
Proof. destruct s as [|c s]; simpl; [done|]. by intros ->. Qed.

Lemma rstrip_head (c : ascii) (s : string) :
  is_space c = false → ∃ t, rstrip (String c s) = String c t.
Proof.
  intros Hc. simpl. destruct (rstrip s); rewrite ?Hc; eauto.
Qed.

Lemma rstrip_idemp (s : string) : rstrip (rstrip s) = rstrip s.
Proof.
  induction s as [|c s IH]; simpl; [done|].
  destruct (rstrip s) as [|c' t] eqn:Ht.
  - destruct (is_space c) eqn:Hc; simpl; [done|]. by rewrite Hc.
  - simpl in *. destruct (rstrip t) as [|c'' t'] eqn:Ht'.
    + destruct (is_space c') eqn:Hc'; [done|]. by injection IH as <-.
    + by rewrite IH.
Qed.

Lemma strip_idemp (s : string) : strip (strip s) = strip s.
Proof.
  unfold strip. pose proof (lstrip_no_lead s) as Hl.
  destruct (lstrip s) as [|c t] eqn:Hs; [done|].
  destruct (rstrip_head c t Hl) as [t' Ht']. rewrite Ht'.
  rewrite (lstrip_fixed (String c t')) by done. rewrite <- Ht'.
  apply rstrip_idemp.
Qed.

Lemma prefix_cons (c c' : ascii) (key s : string) :
  String.prefix (String c key) (String c' s)
  = if decide (c = c') then String.prefix key s else false.
Proof.
  change (String.prefix (String c key) (String c' s))
    with (if ascii_dec c c' then String.prefix key s else false).
  destruct (ascii_dec c c'), (decide (c = c')); done.
Qed.

Lemma startswith_app (key s : string) :
  startswith key s = true ↔ ∃ rest, s = (key ++ rest)%string.
Proof.
  unfold startswith. revert s. induction key as [|c key IH]; intros s.
  - split; [|by destruct s]. exists s. by destruct s.
  - destruct s as [|c' s]; [split; [done|by intros [? [=]]]|].
    rewrite prefix_cons. destruct (decide (c = c')) as [->|Hne].
    + rewrite IH. split; intros [rest Hr]; exists rest.
      * by rewrite Hr.
      * change (String c' s = String c' (key ++ rest)%string) in Hr.
        by injection Hr.
    + split; [done|]. intros [rest Hr].
      change (String c' s = String c (key ++ rest)%string) in Hr.
      by injection Hr as -> _.
Qed.

Lemma elem_of_filter_lines (raw : list string) (l : string) :
  l ∈ filter_lines raw ↔
  ∃ r, r ∈ raw ∧ l = strip r ∧ strip r ≠ "" ∧ startswith "%" r = false.
Proof.
  unfold filter_lines. rewrite list_elem_of_fmap.
  split; intros (r & H1 & H2); exists r.
  - apply list_elem_of_In, filter_In in H2 as [Hin Hb].
    apply andb_prop in Hb as [Hne Hc]. apply negb_true_iff in Hne, Hc.
    apply String.eqb_neq in Hne. by rewrite list_elem_of_In.
  - destruct H2 as (-> & Hne & Hc). split; [done|].
    apply list_elem_of_In, filter_In. split; [by apply list_elem_of_In|].
    apply andb_true_intro. rewrite !negb_true_iff. split; [|done].
    by apply String.eqb_neq.
Qed.

Lemma filter_lines_cons (r : string) (raw : list string) :
  filter_lines (r :: raw)
  = (if decide (strip r = "" ∨ startswith "%" r = true) then []
     else [strip r]) ++ filter_lines raw.
Proof.
  unfold filter_lines. simpl.
  destruct (String.eqb_spec (strip r) "") as [He|He]; simpl.
  - by rewrite decide_True by auto.
  - destruct (startswith "%" r) eqn:Hc; simpl.
    + by rewrite decide_True by auto.
    + rewrite decide_False; [done|]. by intros [?|?].
Qed.

Lemma filter_lines_app (raw1 raw2 : list string) :
  filter_lines (raw1 ++ raw2) = filter_lines raw1 ++ filter_lines raw2.
Proof. unfold filter_lines. by rewrite List.filter_app, fmap_app. Qed.

Lemma filter_lines_sublist (raw : list string) :
  filter_lines raw `sublist_of` (strip <$> raw).
Proof.
  induction raw as [|r raw IH]; [done|]. rewrite filter_lines_cons. csimpl.
  destruct (decide (strip r = "" ∨ startswith "%" r = true)); simpl.
  - by apply sublist_cons.
  - by apply sublist_skip.
Qed.

(** X1. Every line that [read_su2] works on is non-empty and carries no
    white space at either end (it is its own [strip]). The filter only
    drops lines: what it keeps is a subsequence of the stripped raw lines,
    in the order of the file. And it decides line by line: a raw line is
    dropped exactly when it is blank or starts with [%], whatever stands
    before and after it. *)
Theorem filter_lines_clean (raw : list string) :
  Forall (λ l, l ≠ "" ∧ strip l = l) (filter_lines raw) ∧
  filter_lines raw `sublist_of` (strip <$> raw) ∧
  (∀ before r after, raw = before ++ r :: after →
     filter_lines raw
     = filter_lines before
       ++ (if decide (strip r = "" ∨ startswith "%" r = true) then []
           else [strip r])
       ++ filter_lines after).
Proof.
  split_and!.
  - apply Forall_forall. intros l (r & _ & -> & Hne & _)%elem_of_filter_lines.
    split; [done|apply strip_idemp].
  - apply filter_lines_sublist.
  - intros before r after ->.
    by rewrite filter_lines_app, filter_lines_cons.
Qed.

(** X2. The comment test looks at the raw line: a comment that is
    indented with white space is not dropped, and reaches the parser as a
    line that starts with [%]. *)
Theorem indented_comment_kept (raw : list string) (r : string) :
  r ∈ raw → startswith "%" r = false → startswith "%" (lstrip r) = true →
  strip r ∈ filter_lines raw ∧ startswith "%" (strip r) = true.
Proof.
  intros Hin Hraw Hl.
  assert (∃ t, strip r = String "%" t) as [t Ht].
  { unfold strip. apply startswith_app in Hl as [rest ->].
    by apply rstrip_head. }
  split.
  - apply elem_of_filter_lines. exists r. split_and!; [done..| |done].
    by rewrite Ht.
  - rewrite Ht. apply startswith_app. by exists t.
Qed.

(** X3. The local [find] returns the index of the first line that has the
    keyword as a prefix, whatever follows the keyword on that line, and
    none exactly when no line has it as a prefix. *)
Theorem find_first_prefix (lines : list string) (key : string) :
  (∀ i, find lines key = Some i ↔
     ∃ rest, lines !! i = Some (key ++ rest)%string ∧
       ∀ j l, (j < i)%nat → lines !! j = Some l →
              ∀ rest', l ≠ (key ++ rest')%string) ∧
  (find lines key = None ↔
     ∀ l rest, l ∈ lines → l ≠ (key ++ rest)%string).
Proof.
  split.
  - intros i. rewrite find_Some. split.
    + intros (l & Hl & [rest ->]%startswith_app & Hmin). exists rest.
      split; [done|]. intros j l' Hj Hl' rest' ->.
      specialize (Hmin j _ Hl' Hj).
      assert (startswith key (key ++ rest')%string = true) as Ht
        by (apply startswith_app; eauto).
      congruence.
    + intros (rest & Hl & Hmin). exists (key ++ rest)%string.
      split_and!; [done|apply startswith_app; eauto|].
      intros j l' Hl' Hj. destruct (startswith key l') eqn:Hs; [|done].
      apply startswith_app in Hs as [rest' ->]. by destruct (Hmin j _ Hj Hl' rest').
  - rewrite find_None. split.
    + intros H l rest Hl ->. specialize (H _ Hl).
      assert (startswith key (key ++ rest)%string = true) as Ht
        by (apply startswith_app; eauto).
      congruence.
    + intros H l Hl. destruct (startswith key l) eqn:Hs; [|done].
      apply startswith_app in Hs as [rest ->]. by destruct (H _ rest Hl).
Qed.

(** ** Counts and the extent of the sections *)

Lemma int_value_line (lines : list string) (i : nat) (n : Z) :
  int_value lines i = Ok n → (i < length lines)%nat.
Proof.
  unfold int_value, index. intros H.
  apply bind_Ok in H as (l & Hl%of_option_Ok & _). by eapply lookup_lt_Some.
Qed.

Lemma record_at_line (lines : list string) (p : nat) (parts : list Z) :
  record_at lines p parts → (p < length lines)%nat.
Proof. intros (l & Hl & _). by eapply lookup_lt_Some. Qed.

Lemma marker_blocks_extent (lines : list string) (ndime : Z) (n p p' : nat)
    (blocks : list (string * list (list Z))) :
  marker_blocks lines ndime p n = Ok (p', blocks) →
  length blocks = n ∧
  p' = (p + sum_list ((λ b, 2 + length b.2)%nat <$> blocks))%nat ∧
  (p ≤ length lines → p' ≤ length lines)%nat.
Proof.
  revert p blocks. induction n as [|n IH]; intros p blocks; simpl.
  - intros [= <- <-]. simpl. split_and!; [done|lia|done].
  - intros H. apply bind_Ok in H as ([[q t] es] & Hm & H).
    apply bind_Ok in H as ([q' bs] & Hbs & [= <- <-]).
    apply IH in Hbs as (Hlen & -> & Hle).
    apply read_marker_Ok in Hm
      as (l & v & ne & recs & Hl & _ & _ & Hne & Hrl & -> & Hrecs & ->).
    rewrite <- Hlen. split_and!; [done|csimpl; rewrite length_fmap; lia|].
    intros _. apply Hle. apply int_value_line in Hne.
    destruct recs as [|r recs _] using rev_ind; [simpl; lia|].
    rewrite length_app. simpl.
    assert (record_at lines (p + 2 + length recs) r) as Hr
      by (apply Hrecs, list_lookup_middle; done).
    apply record_at_line in Hr. lia.
Qed.

Section Extent.
Context {F : Type} (fzero : F) (parse_float : string → option F).

(** X4. A negative count is an error only for the points: [np.zeros]
    refuses a negative [NPOIN] with [ValueError], whereas a zero or
    negative [NELEM] or [NMARK] reads no record and gives empty results. *)
Theorem nonpositive_counts (lines : list string) (ndime : Z) (i : nat) (n : Z) :
  int_value lines i = Ok n →
  (find lines "NPOIN" = Some i → n < 0 →
   read_points fzero parse_float lines ndime = Raise ValueError) ∧
  (find lines "NPOIN" = Some i → n = 0 →
   read_points fzero parse_float lines ndime = Ok []) ∧
  (find lines "NELEM" = Some i → n ≤ 0 →
   read_volume lines ndime = Ok ([], [])) ∧
  (find lines "NMARK" = Some i → n ≤ 0 → read_markers lines ndime = Ok []).
Proof.
  intros Hn. split_and!.
  - intros Hi Hneg. unfold read_points, np_zeros3. rewrite Hi. simpl.
    rewrite Hn. simpl. by destruct (Z.ltb_spec n 0); [|lia].
  - intros Hi ->. unfold read_points, np_zeros3. rewrite Hi. simpl.
    by rewrite Hn.
  - intros Hi Hle. unfold read_volume. rewrite Hi, Hn. simpl.
    by replace (Z.to_nat n) with 0%nat by lia.
  - intros Hi Hle. unfold read_markers. rewrite Hi. simpl. rewrite Hn. simpl.
    by replace (Z.to_nat n) with 0%nat by lia.
Qed.

(** X5. In a file that [read_su2] accepts every announced record is a line
    of the file: the [NPOIN] and [NELEM] lines are followed by at least as
    many lines as they announce, and the marker blocks lie back to back
    from the line after [NMARK], each taking two lines and one line per
    element, without running past the end of the file. *)
Theorem sections_within_file (raw : list string) ndime pts vol_conns
    vol_ctypes markers :
  read_su2 fzero parse_float raw
  = Ok (ndime, pts, vol_conns, vol_ctypes, markers) →
  let lines := filter_lines raw in
  (∃ i npoin, find lines "NPOIN" = Some i ∧ int_value lines i = Ok npoin ∧
     (i + Z.to_nat npoin < length lines)%nat) ∧
  (∀ i, find lines "NELEM" = Some i →
     ∃ nelem, int_value lines i = Ok nelem ∧
              (i + Z.to_nat nelem < length lines)%nat) ∧
  (∃ i nmark p' blocks,
     find lines "NMARK" = Some i ∧ int_value lines i = Ok nmark ∧
     marker_blocks lines ndime (S i) (Z.to_nat nmark) = Ok (p', blocks) ∧
     length blocks = Z.to_nat nmark ∧
     p' = (S i + sum_list ((λ b, 2 + length b.2)%nat <$> blocks))%nat ∧
     (p' ≤ length lines)%nat).
Proof.
  intros (_ & Hp & Hv & Hm)%read_su2_Ok lines. subst lines. split_and!.
  - apply read_points_Ok in Hp as (i & npoin & Hi & Hn & Hpos & Hlen & Hrows).
    exists i, npoin. split_and!; [done..|].
    apply int_value_line in Hn as Hlt.
    destruct (decide (npoin = 0)) as [->|Hne]; [simpl; lia|].
    destruct (lookup_lt_is_Some_2 pts (Z.to_nat npoin - 1)) as [row Hrow];
      [lia|].
    destruct (Hrows _ _ Hrow) as (_ & _ & l & Hl & _).
    apply lookup_lt_Some in Hl. lia.
  - intros i Hi. apply read_volume_Ok in Hv
      as [(Hno & _)|(i' & nelem & recs & Hi' & Hn & Hlen & Hrecs & _)];
      [congruence|].
    rewrite Hi in Hi'. injection Hi' as <-.
    exists nelem. split; [done|]. apply int_value_line in Hn as Hlt.
    destruct recs as [|r recs _] using rev_ind; [simpl in Hlen; lia|].
    rewrite length_app in Hlen. simpl in Hlen.
    destruct (Hrecs (length recs) r) as [Hr _]; [by apply list_lookup_middle|].
    apply record_at_line in Hr. lia.
  - apply read_markers_Ok in Hm as (i & nmark & p' & blocks & Hi & Hn & Hb & _).
    exists i, nmark, p', blocks. split_and!; [done..| | |];
      apply marker_blocks_extent in Hb as (? & ? & Hle); [done|done|].
    apply Hle. apply int_value_line in Hn. lia.
Qed.
End Extent.

(** ** Short point lines *)

Section PointRows.
Context {F : Type} (fzero : F) (parse_float : string → option F).

(** Every row of the point array is the zero row with the numbers of its
    line assigned to the slice [:ndime]. *)
Lemma read_points_rows (lines : list string) (ndime : Z) (pts : list (list F)) :
  read_points fzero parse_float lines ndime = Ok pts →
  ∃ i, find lines "NPOIN" = Some i ∧
    ∀ k row, pts !! k = Some row →
      ∃ l xyz, lines !! (i + 1 + k)%nat = Some l ∧
        map_result (float parse_float) (slice_to ndime (split l)) = Ok xyz ∧
        assign_slice [fzero; fzero; fzero] ndime xyz = Ok row.
Proof.
  unfold read_points, np_zeros3. intros H.
  apply bind_Ok in H as (i & Hi%of_option_Ok & H).
  apply bind_Ok in H as (npoin & Hn & H).
  apply bind_Ok in H as (pts0 & H0 & H).
  destruct (Z.ltb_spec npoin 0) as [|Hpos]; [done|]. injection H0 as <-.
  exists i. split; [done|]. set (N := Z.to_nat npoin) in *.
  apply (for_range_inv (λ k ps,
           length ps = N ∧
           (∀ j row, (j < k)%nat → ps !! j = Some row →
              ∃ l xyz, lines !! (i + 1 + j)%nat = Some l ∧
                map_result (float parse_float) (slice_to ndime (split l))
                = Ok xyz ∧
                assign_slice [fzero; fzero; fzero] ndime xyz = Ok row) ∧
           (∀ j, (k ≤ j < N)%nat → ps !! j = Some [fzero; fzero; fzero])))
    in H as (Hlen & Hrows & _).
  - intros k row Hk. apply (Hrows k); [|done].
    apply lookup_lt_Some in Hk. lia.
  - split_and!; [by rewrite length_replicate|lia|].
    intros j Hj. apply lookup_replicate_2. lia.
  - intros k ps ps' Hk (Hlen & Hrows & Hzero) Hstep.
    unfold point_step, index in Hstep.
    apply bind_Ok in Hstep as (l & Hl%of_option_Ok & Hstep).
    apply bind_Ok in Hstep as (xyz & Hxyz & Hstep).
    apply bind_Ok in Hstep as (row0 & Hrow0%of_option_Ok & Hstep).
    apply bind_Ok in Hstep as (row' & Hrow' & [= <-]).
    rewrite Hzero in Hrow0 by lia. injection Hrow0 as <-. split_and!.
    + by rewrite length_insert.
    + intros j row Hj. destruct (decide (j = k)) as [->|Hne].
      * rewrite list_lookup_insert_eq by lia. intros [= <-]. eauto.
      * rewrite list_lookup_insert_ne by done. apply Hrows. lia.
    + intros j Hj. rewrite list_lookup_insert_ne by lia. apply Hzero. lia.
Qed.

(** X6. With dimension 2 or 3, a point line that has fewer fields than the
    dimension is accepted only when it has exactly one field, and numpy
    then copies that one number into all [dimension] coordinates. *)
Theorem short_point_line (raw : list string) ndime pts vol_conns vol_ctypes
    markers :
  read_su2 fzero parse_float raw
  = Ok (ndime, pts, vol_conns, vol_ctypes, markers) →
  ndime = 2 ∨ ndime = 3 →
  ∃ i, find (filter_lines raw) "NPOIN" = Some i ∧
    ∀ k row, pts !! k = Some row →
      ∃ l, filter_lines raw !! (i + 1 + k)%nat = Some l ∧
        ((Z.to_nat ndime ≤ length (split l))%nat ∨
         ∃ s x, split l = [s] ∧ parse_float s = Some x ∧
                row = replicate (Z.to_nat ndime) x
                      ++ replicate (3 - Z.to_nat ndime) fzero).
Proof.
  intros (_ & Hp & _)%read_su2_Ok Hd.
  apply read_points_rows in Hp as (i & Hi & Hrows). exists i. split; [done|].
  intros k row Hk. destruct (Hrows k row Hk) as (l & xyz & Hl & Hxyz & Hrow).
  exists l. split; [done|].
  destruct (decide (Z.to_nat ndime ≤ length (split l))%nat) as [|Hshort];
    [by left|]. right.
  assert (slice_to ndime (split l) = split l) as Hs.
  { unfold slice_to. destruct Hd as [-> | ->]; simpl in *;
      apply take_ge; lia. }
  rewrite Hs in Hxyz. apply map_result_Ok in Hxyz.
  apply Forall2_length in Hxyz as Hlen.
  unfold assign_slice in Hrow.
  assert (length (slice_to ndime [fzero; fzero; fzero]) = Z.to_nat ndime) as Hn
    by (unfold slice_to; by destruct Hd as [-> | ->]).
  rewrite Hn in Hrow. rewrite decide_False in Hrow by lia.
  destruct xyz as [|x [|??]]; [done| |done]. injection Hrow as <-.
  inversion Hxyz as [|s ? ss ? Hsx Hss Es Ex]; subst. inversion Hss; subst.
  exists s, x. unfold float in Hsx. apply of_option_Ok in Hsx.
  split_and!; [done..|]. f_equal.
  by destruct Hd as [-> | ->].
Qed.
End PointRows.

(** ** The order of the marker dict *)

Lemma dict_set_keys_order {V} (k : string) (v : V) (d : list (string * V)) :
  (dict_set k v d).*1 = if decide (k ∈ d.*1) then d.*1 else d.*1 ++ [k].
Proof.
  induction d as [|[k0 v0] d IH]; csimpl.
  - by destruct (decide (k ∈ [])) as [?%elem_of_nil|].
  - destruct (decide (k = k0)) as [->|Hne]; csimpl.
    + destruct (decide (k0 ∈ k0 :: d.*1)) as [|Hn]; [done|].
      destruct Hn. left.
    + rewrite IH. destruct (decide (k ∈ d.*1)) as [Hin|Hin],
        (decide (k ∈ k0 :: d.*1)) as [Hin'|Hin']; try done.
      * destruct Hin'. by right.
      * by apply elem_of_cons in Hin' as [?|?].
Qed.

Lemma store_blocks_snoc {V} (m blocks : list (string * V)) (b : string * V) :
  store_blocks m (blocks ++ [b]) = dict_set b.1 b.2 (store_blocks m blocks).
Proof. unfold store_blocks. by rewrite foldl_app. Qed.

Lemma store_blocks_keys {V} (blocks : list (string * V)) :
  (store_blocks [] blocks).*1 = reverse (remove_dups (reverse blocks.*1)).
Proof.
  induction blocks as [|b blocks IH] using rev_ind; [done|].
  rewrite store_blocks_snoc, dict_set_keys_order, IH.
  rewrite fmap_app, reverse_app. simpl.
  assert (b.1 ∈ reverse (remove_dups (reverse blocks.*1)) ↔
          b.1 ∈ reverse blocks.*1) as Hmem
    by (by rewrite elem_of_reverse, elem_of_remove_dups).
  destruct (decide_rel elem_of b.1 (reverse blocks.*1)) as [Hin|Hin].
  - rewrite decide_True by (by apply Hmem). done.
  - rewrite decide_False by (by rewrite Hmem). by rewrite reverse_cons.
Qed.

Section MarkerOrder.
Context {F : Type} (fzero : F) (parse_float : string → option F).

(** X7. The marker dict lists the tags in the order in which they first
    appear in the file, each tag once: a tag that comes again keeps the
    place of its first block (and, by C10, takes the elements of its last
    one). *)
Theorem marker_order (raw : list string) ndime pts vol_conns vol_ctypes
    markers :
  read_su2 fzero parse_float raw
  = Ok (ndime, pts, vol_conns, vol_ctypes, markers) →
  ∃ i nmark p' blocks,
    find (filter_lines raw) "NMARK" = Some i ∧
    int_value (filter_lines raw) i = Ok nmark ∧
    marker_blocks (filter_lines raw) ndime (S i) (Z.to_nat nmark)
    = Ok (p', blocks) ∧
    markers.*1 = reverse (remove_dups (reverse blocks.*1)) ∧
    (NoDup blocks.*1 → markers = blocks).
Proof.
  intros (_ & _ & _ & Hm)%read_su2_Ok.
  apply read_markers_Ok in Hm as (i & nmark & p' & blocks & Hi & Hn & Hb & ->).
  exists i, nmark, p', blocks. split_and!; [done..|apply store_blocks_keys|].
  clear. induction blocks as [|b blocks IH] using rev_ind; [done|].
  rewrite fmap_app. intros [Hnd [Hdisj _]]%NoDup_app.
  rewrite store_blocks_snoc, IH by done. clear IH.
  assert (b.1 ∉ blocks.*1) as Hb.
  { intros Hin. apply (Hdisj _ Hin). simpl. left. }
  clear Hdisj Hnd. induction blocks as [|[k0 v0] blocks IH]; simpl.
  - by destruct b.
  - apply not_elem_of_cons in Hb as [Hne Hb]. simpl in Hne.
    rewrite decide_False by done. by rewrite IH.
Qed.
End MarkerOrder.

(** ** Marker lines are read by position *)

Lemma value_field_key (k rest : string) :
  free_of "=" k →
  value_field (k ++ "=" ++ rest)%string
  = of_option (head (split_on "=" rest)) IndexError.
Proof.
  intros Hk. unfold value_field, index.
  change (k ++ "=" ++ rest)%string with (k ++ String "=" rest)%string.
  rewrite split_on_app by done. by destruct (split_on "=" rest).
Qed.

Lemma marker_elems_agree (lines1 lines2 : list string) (ndime : Z)
    (n start q : nat) (elems : list (list Z)) :
  (∀ j, (q ≤ j)%nat → lines1 !! j = lines2 !! j) →
  for_range start n (marker_elem_step lines1 ndime) (q, elems)
  = for_range start n (marker_elem_step lines2 ndime) (q, elems).
Proof.
  revert start q elems. induction n as [|n IH]; intros start q elems Hag;
    [done|].
  simpl. unfold index. rewrite (Hag q) by lia.
  destruct (lines2 !! q) as [l|]; simpl; [|done].
  destruct (map_result int (split l)) as [e|]; simpl; [|done].
  apply IH. intros j Hj. apply Hag. lia.
Qed.

(** X8. The two header lines of a marker block are read by position, and
    only the text after their first [=] is used: the keywords
    [MARKER_TAG] and [MARKER_ELEMS] are never checked, so any other text
    before the [=] gives the same block. *)
Theorem marker_keywords_unchecked (pre rest : list string)
    (k1 k1' k2 k2' v w : string) (ndime : Z) :
  free_of "=" k1 → free_of "=" k1' → free_of "=" k2 → free_of "=" k2' →
  read_marker (pre ++ (k1 ++ "=" ++ v)%string :: (k2 ++ "=" ++ w)%string :: rest)
    ndime (length pre)
  = read_marker
      (pre ++ (k1' ++ "=" ++ v)%string :: (k2' ++ "=" ++ w)%string :: rest)
      ndime (length pre).
Proof.
  intros H1 H1' H2 H2'.
  assert (∀ a b : string,
    (pre ++ a :: b :: rest) !! length pre = Some a ∧
    (pre ++ a :: b :: rest) !! S (length pre) = Some b) as Hlook.
  { intros a b. split; [by apply list_lookup_middle|].
    rewrite lookup_app_r by lia.
    by replace (S (length pre) - length pre)%nat with 1%nat by lia. }
  unfold read_marker, int_value, index.
  rewrite !(proj1 (Hlook _ _)), !(proj2 (Hlook _ _)). simpl.
  rewrite !value_field_key by done.
  destruct (head (split_on "=" v)) as [tag|]; simpl; [|done].
  destruct (head (split_on "=" w)) as [c|]; simpl; [|done].
  destruct (int c) as [ne|]; simpl; [|done].
  erewrite marker_elems_agree; [done|].
  intros j Hj. rewrite !(lookup_app_r pre) by lia.
  destruct (j - length pre)%nat as [|[|m]] eqn:Hm; [lia|lia|done].
Qed.

(** ** The grid builder *)

Section GridBuilder.
Context {F : Type}.

Lemma vtk_point_Ok (row : list F) (p : F * F * F) :
  vtk_point row = Ok p ↔ ∃ x y z rest, row = x :: y :: z :: rest ∧ p = (x, y, z).
Proof.
  unfold vtk_point, index. destruct row as [|x [|y [|z rest]]]; simpl;
    try (split; [done|by intros (? & ? & ? & ? & [=] & _)]).
  split.
  - intros [= <-]. by exists x, y, z, rest.
  - by intros (? & ? & ? & ? & [= <- <- <- <-] & ->).
Qed.

Lemma vtk_point_Raise (row : list F) (e : exn) :
  vtk_point row = Raise e → e = IndexError ∧ (length row < 3)%nat.
Proof.
  unfold vtk_point, index. destruct row as [|x [|y [|z rest]]]; simpl;
    try done; intros [= <-]; split; (done || lia).
Qed.

Lemma vtk_points_Raise (points : list (list F)) (e : exn) :
  map_result vtk_point points = Raise e →
  e = IndexError ∧ Exists (λ row, (length row < 3)%nat) points.
Proof.
  induction points as [|row points IH]; simpl; [done|].
  intros [H|(p & _ & [H|(ps & _ & [=])]%bind_Raise)]%bind_Raise.
  - apply vtk_point_Raise in H as [-> ?]. split; [done|by left].
  - destruct (IH H) as [-> ?]. split; [done|by right].
Qed.

Lemma build_ugrid_Raise (points : list (list F)) (conns : list (list Z))
    (ctypes : list Z) (e : exn) :
  build_ugrid points conns ctypes = Raise e →
  e = IndexError ∧ Exists (λ row, (length row < 3)%nat) points.
Proof.
  unfold build_ugrid. intros [Hr|(ps & _ & [=])]%bind_Raise.
  by apply vtk_points_Raise.
Qed.

Lemma build_ugrid_total (points : list (list F)) (conns : list (list Z))
    (ctypes : list Z) :
  Forall (λ row, (3 ≤ length row)%nat) points →
  ∃ ug, build_ugrid points conns ctypes = Ok ug.
Proof.
  intros Hall. destruct (build_ugrid points conns ctypes) as [ug|e] eqn:Hb;
    [eauto|].
  apply build_ugrid_Raise in Hb as [_ Hex].
  apply Exists_exists in Hex as (row & Hrow & Hlt).
  rewrite Forall_forall in Hall. specialize (Hall row Hrow). lia.
Qed.

Lemma build_ugrid_Ok (points : list (list F)) (conns : list (list Z))
    (ctypes : list Z) (ug : ugrid F) :
  build_ugrid points conns ctypes = Ok ug →
  Forall2 (λ row p, ∃ x y z rest, row = x :: y :: z :: rest ∧ p = (x, y, z))
    points (ug_points ug) ∧
  ug_cells ug = zip_with (λ conn ct, (ct, conn)) conns ctypes.
Proof.
  unfold build_ugrid. intros Hb.
  apply bind_Ok in Hb as (ps & Hps%map_result_Ok & [= <-]). simpl.
  split; [|done]. eapply Forall2_impl; [done|]. by intros row p ?%vtk_point_Ok.
Qed.

(** X9. [build_ugrid] converts the points before it looks at a cell: it
    raises [IndexError] exactly when a point row has fewer than three
    coordinates, whatever the cells are. With three coordinates in each
    row, point ids that fit [vtkIdType] and cell types of the reader, it
    returns a grid with one point per row and one cell per pair of
    [zip(conns, ctypes)], so that the longer of the two lists is cut;
    the point ids of a cell are not checked against the number of
    points. *)
Theorem build_ugrid_spec (points : list (list F)) (conns : list (list Z))
    (ctypes : list Z) :
  (build_ugrid points conns ctypes = Raise IndexError ↔
   Exists (λ row, (length row < 3)%nat) points) ∧
  (Forall (λ row, (3 ≤ length row)%nat) points →
   Forall (Forall vtk_id) conns → Forall vtk_cell_type ctypes →
   ∃ ug, build_ugrid points conns ctypes = Ok ug ∧
     length (ug_points ug) = length points ∧
     length (ug_cells ug) = (length conns `min` length ctypes)%nat ∧
     ∀ j conn ct, conns !! j = Some conn → ctypes !! j = Some ct →
                  ug_cells ug !! j = Some (ct, conn)).
Proof.
  split.
  - split; [by intros [_ ?]%build_ugrid_Raise|]. intros Hex.
    destruct (build_ugrid points conns ctypes) as [ug|e] eqn:Hb.
    + exfalso. apply build_ugrid_Ok in Hb as [Hps _].
      apply Exists_exists in Hex as (row & Hrow & Hlt).
      apply list_elem_of_lookup in Hrow as [j Hj].
      destruct (Forall2_lookup_l _ _ _ _ _ Hps Hj)
        as (p & _ & x & y & z & rest & -> & _). simpl in Hlt. lia.
    + by apply build_ugrid_Raise in Hb as [-> _].
  - intros Hrows _ _. destruct (build_ugrid_total points conns ctypes Hrows)
      as [ug Hug]. exists ug. split; [done|].
    apply build_ugrid_Ok in Hug as [Hps Hcells]. rewrite Hcells. split_and!.
    + symmetry. by eapply Forall2_length.
    + by rewrite length_zip_with.
    + intros j conn ct Hc Ht. rewrite lookup_zip_with, Hc. simpl.
      by rewrite Ht.
Qed.
End GridBuilder.

Section VolumeGrid.
Context {F : Type} (fzero : F) (parse_float : string → option F).

(** X10. For a file that [read_su2] accepts and whose volume node indices
    fit [vtkIdType], the volume grid is built: it has one point per point
    line and one cell per recognized volume record, with the cell type
    and the connectivity that the parser gave it, none being cut by
    [zip]; the node indices are not checked against the number of
    points. *)
Theorem volume_grid_built (raw : list string) ndime pts vol_conns vol_ctypes
    markers :
  read_su2 fzero parse_float raw
  = Ok (ndime, pts, vol_conns, vol_ctypes, markers) →
  Forall (Forall vtk_id) vol_conns →
  Forall vtk_cell_type vol_ctypes ∧
  ∃ ug, build_ugrid pts vol_conns vol_ctypes = Ok ug ∧
    length (ug_points ug) = length pts ∧
    ug_cells ug = zip vol_ctypes vol_conns ∧
    length (ug_cells ug) = length vol_conns.
Proof.
  intros Hrun _.
  apply read_su2_Ok in Hrun as (_ & Hp & Hv & _).
  apply read_points_Ok in Hp as (i & npoin & _ & _ & _ & _ & Hrows).
  assert (length vol_conns = length vol_ctypes ∧
          Forall vtk_cell_type vol_ctypes) as [Hlen Htypes].
  { apply read_volume_Ok in Hv
      as [(_ & -> & ->)|(? & ? & recs & _ & _ & _ & _ & -> & ->)]; [done|].
    split; [by rewrite !length_fmap|].
    rewrite <- list_fmap_compose. apply Forall_fmap, Forall_forall.
    intros parts [Hrec _]%list_elem_of_filter. simpl.
    unfold recognized in Hrec. destruct (type_code parts) as [t|]; [|done].
    destruct Hrec as [ct Hct]. exists t. simpl.
    by apply VTK_TYPE_MAP_lookup in Hct as Ht; destruct Ht as [-> _]. }
  split; [done|].
  destruct (build_ugrid_total pts vol_conns vol_ctypes) as [ug Hug].
  { apply Forall_forall. intros row Hrow.
    apply list_elem_of_lookup in Hrow as [k Hk].
    destruct (Hrows k row Hk) as [-> _]. done. }
  exists ug. split; [done|].
  destruct (build_ugrid_Ok _ _ _ _ Hug) as (Hpts & Hcells).
  split_and!.
  - symmetry. by eapply Forall2_length.
  - rewrite Hcells. clear -Hlen. revert vol_ctypes Hlen.
    induction vol_conns as [|c cs IH]; intros [|t ts] Hlen; simpl in *;
      try done. f_equal. apply IH. lia.
  - rewrite Hcells, length_zip_with, Hlen. lia.
Qed.
End VolumeGrid.

(** ** Failure of the compaction *)

Lemma np_index_cases {A} (l : list A) (i : Z) :
  (in_range l i ∧ ∃ x, np_index l i = Ok x ∧ x ∈ l) ∨
  (¬ in_range l i ∧ np_index l i = Raise IndexError).
Proof.
  unfold in_range, np_index, index.
  destruct (Z.leb_spec 0 i), (Z.ltb_spec i (Z.of_nat (length l))); simpl.
  - left. split; [lia|].
    destruct (lookup_lt_is_Some_2 l (Z.to_nat i)) as [x Hx]; [lia|].
    rewrite Hx. exists x. split; [done|]. by eapply list_elem_of_lookup_2.
  - right. destruct (Z.leb_spec (- Z.of_nat (length l)) i),
      (Z.ltb_spec i 0); simpl; split; (done || lia).
  - destruct (Z.leb_spec (- Z.of_nat (length l)) i), (Z.ltb_spec i 0); simpl;
      try lia.
    + left. split; [lia|].
      destruct (lookup_lt_is_Some_2 l (Z.to_nat (Z.of_nat (length l) + i)))
        as [x Hx]; [lia|].
      rewrite Hx. exists x. split; [done|]. by eapply list_elem_of_lookup_2.
    + right. split; [lia|done].
  - lia.
Qed.

Section CompactionFailure.
Context {F : Type} (iter : gset Z → list Z).
Hypothesis iter_perm : ∀ s, iter s ≡ₚ elements s.

Lemma np_take_Raise (pts : list (list F)) (used : list Z) (e : exn) :
  np_take pts used = Raise e →
  e = IndexError ∧ Exists (λ o, ¬ in_range pts o) used.
Proof.
  unfold np_take. induction used as [|o used IH]; simpl; [done|].
  intros [Hr|(row & _ & [Hr|(rows & _ & [=])]%bind_Raise)]%bind_Raise.
  - destruct (np_index_cases pts o) as [(_ & x & Hx & _)|[Hout Hx]];
      [congruence|]. rewrite Hx in Hr. injection Hr as <-.
    split; [done|by left].
  - destruct (IH Hr) as [-> ?]. split; [done|by right].
Qed.

Lemma compact_tail_fails (pts : list (list F)) (P : list Z → Prop)
    `{!∀ e, Decision (P e)} (c : list Z → list Z) (elems : list (list Z)) :
  (∀ e, P e → is_Some (type_code e)) →
  let kept := filter P elems in
  let r := compact_tail iter pts (referenced (c <$> kept)) (c <$> kept)
             (omap type_code kept) in
  (∀ e, r = Raise e → e = IndexError) ∧
  (Forall (λ row, (3 ≤ length row)%nat) pts →
   r = Raise IndexError ↔
   ∃ e n, e ∈ kept ∧ n ∈ c e ∧ ¬ in_range pts n).
Proof.
  intros HP kept r.
  assert (∀ c0 n, c0 ∈ c <$> kept → n ∈ c0 → n ∈ referenced (c <$> kept))
    as Hcov by (intros c0 n ??; apply elem_of_referenced; eauto).
  assert (∀ n, n ∈ sorted iter (referenced (c <$> kept)) ↔
               ∃ e, e ∈ kept ∧ n ∈ c e) as Hused.
  { intros n. rewrite elem_of_sorted by done. rewrite elem_of_referenced.
    split.
    - intros (c0 & (e & -> & He)%list_elem_of_fmap & Hn). eauto.
    - intros (e & He & Hn). exists (c e). split; [|done].
      by apply list_elem_of_fmap_2. }
  assert (∀ e, r = Raise e →
    e = IndexError ∧
    (Forall (λ row, (3 ≤ length row)%nat) pts →
     Exists (λ o, ¬ in_range pts o) (sorted iter (referenced (c <$> kept)))))
    as Hraise.
  { intros e He. unfold r, compact_tail in He.
    destruct (c <$> kept) as [|c1 cs] eqn:Hcs; [done|].
    rewrite remap_rank in He by done.
    apply bind_Raise in He as [Hr|(rows & Hrs & He)];
      [by apply np_take_Raise in Hr as [-> ?]|].
    simpl in He. apply bind_Raise in He as [Hr|(ug & _ & [=])].
    apply build_ugrid_Raise in Hr as [-> Hex]. split; [done|].
    intros Hrows. exfalso.
    apply Exists_exists in Hex as (row & Hrow & Hlt).
    apply map_result_Ok in Hrs.
    apply list_elem_of_lookup in Hrow as [j Hj].
    destruct (Forall2_lookup_r _ _ _ _ _ Hrs Hj) as (o & _ & Ho).
    destruct (np_index_cases pts o) as [(_ & x & Hx & Hin)|[_ Hx]];
      [|congruence]. rewrite Hx in Ho. injection Ho as ->.
    rewrite Forall_forall in Hrows. specialize (Hrows row Hin). lia. }
  split; [by intros e [-> _]%Hraise|].
  intros Hrows. split.
  - intros [_ Hex]%Hraise. specialize (Hex Hrows).
    apply Exists_exists in Hex as (n & Hn & Hout).
    apply Hused in Hn as (e & He & Hn). eauto.
  - intros (e & n & He & Hn & Hout).
    destruct r as [[ug|]|e'] eqn:Hr.
    + exfalso. apply compact_tail_Some in Hr as (_ & Hpts & _); [|done..].
      assert (n ∈ sorted iter (referenced (c <$> kept))) as Hin
        by (apply Hused; eauto).
      apply list_elem_of_lookup in Hin as [j Hj].
      destruct (Forall2_lookup_l _ _ _ _ _ Hpts Hj) as (p & _ & row & Hrow & _).
      destruct (np_index_cases pts n) as [[? _]|[_ Hx]]; [done|congruence].
    + exfalso. apply compact_tail_None in Hr.
      apply fmap_nil_inv in Hr. fold kept in Hr. rewrite Hr in He.
      by apply elem_of_nil in He.
    + f_equal. by destruct (Hraise e' eq_refl) as [-> _].
Qed.

(** X11. The two compactors raise nothing but [IndexError] (no key is ever
    missing from [old2new] or [VTK_TYPE_MAP]); on a point array with three
    coordinates per row they raise it exactly when a node index of a kept
    record is outside [[-n, n)], [n] being the number of points. *)
Theorem compaction_failure (pts : list (list F)) (elems : list (list Z)) :
  (∀ e, build_surface_compacted iter pts elems = Raise e → e = IndexError) ∧
  (∀ e, build_boundary_compacted_2d iter pts elems = Raise e →
        e = IndexError) ∧
  (Forall (λ row, (3 ≤ length row)%nat) pts →
   (build_surface_compacted iter pts elems = Raise IndexError ↔
    ∃ e n, e ∈ filter surface_eligible elems ∧ n ∈ drop 1 e ∧
           ¬ in_range pts n) ∧
   (build_boundary_compacted_2d iter pts elems = Raise IndexError ↔
    ∃ e n, e ∈ filter line_eligible elems ∧ n ∈ take 2 (drop 1 e) ∧
           ¬ in_range pts n)).
Proof.
  rewrite build_surface_compacted_eq, build_boundary_compacted_2d_eq.
  destruct (compact_tail_fails pts surface_eligible (drop 1) elems
              surface_type_code) as [Hs1 Hs2].
  destruct (compact_tail_fails pts line_eligible (take 2 ∘ drop 1) elems
              line_type_code) as [Hl1 Hl2].
  split_and!; [done..|]. intros Hrows. split; [by apply Hs2|by apply Hl2].
Qed.
End CompactionFailure.

(** ** What a compact mesh looks like *)

Lemma seqZ_sorted (s m : nat) : StronglySorted Z.lt (Z.of_nat <$> seq s m).
Proof.
  revert s. induction m as [|m IH]; intros s; csimpl; constructor; [apply IH|].
  apply Forall_fmap, Forall_forall. intros x [Hx _]%elem_of_seq. simpl. lia.
Qed.

Lemma elem_of_seqZ (m : nat) (x : Z) :
  x ∈ Z.of_nat <$> seq 0 m ↔ 0 ≤ x < Z.of_nat m.
Proof.
  rewrite list_elem_of_fmap. split.
  - intros (i & -> & Hi%elem_of_seq). lia.
  - intros Hx. exists (Z.to_nat x). split; [lia|]. apply elem_of_seq. lia.
Qed.

Lemma rank_seqZ (m : nat) (x : Z) :
  0 ≤ x < Z.of_nat m → rank (Z.of_nat <$> seq 0 m) x = x.
Proof.
  intros Hx. rewrite (rank_lookup _ (Z.to_nat x)); [lia|apply seqZ_sorted|].
  rewrite list_lookup_fmap, lookup_seq_lt by lia. simpl. f_equal. lia.
Qed.

Lemma np_take_seqZ {F} (rows : list (list F)) :
  np_take rows (Z.of_nat <$> seq 0 (length rows)) = Ok rows.
Proof.
  unfold np_take. apply map_result_Ok, Forall2_fmap_l.
  apply Forall2_same_length_lookup_2; [by rewrite length_seq|].
  intros i x row Hx Hrow. apply lookup_seq in Hx as [-> _]. simpl.
  apply np_index_nonneg; [lia|]. by rewrite Nat2Z.id.
Qed.

Lemma filter_all {A} (P : A → Prop) `{!∀ x, Decision (P x)} (l : list A) :
  Forall P l → filter P l = l.
Proof.
  induction 1 as [|x l Hx Hl IH]; [done|].
  rewrite filter_cons_True by done. by f_equal.
Qed.

Lemma omap_type_code_cons {A} (t : A → Z) (g : A → list Z) (l : list A) :
  omap type_code ((λ e, t e :: g e) <$> l) = t <$> l.
Proof. induction l as [|e l IH]; [done|]. csimpl. by rewrite IH. Qed.

Section CompactMesh.
Context {F : Type} (iter : gset Z → list Z).
Hypothesis iter_perm : ∀ s, iter s ≡ₚ elements s.

Lemma compact_tail_shape (pts : list (list F)) (P : list Z → Prop)
    `{!∀ e, Decision (P e)} (c : list Z → list Z) (elems : list (list Z))
    (ug : ugrid F) :
  (∀ e, P e → is_Some (type_code e)) →
  let kept := filter P elems in
  let used := sorted iter (referenced (c <$> kept)) in
  compact_tail iter pts (referenced (c <$> kept)) (c <$> kept)
    (omap type_code kept) = Ok (Some ug) →
  kept ≠ [] ∧
  length (ug_points ug) = length used ∧
  ug_cells ug = (λ e, (default 0 (type_code e), rank used <$> c e)) <$> kept ∧
  (∀ x, (∃ e n, e ∈ kept ∧ n ∈ c e ∧ x = rank used n) ↔
        0 ≤ x < Z.of_nat (length used)).
Proof.
  intros HP kept used Hug.
  apply compact_tail_Some in Hug as (Hne & Hpts & Hcells);
    [|done|by intros c0 n ??; apply elem_of_referenced; eauto].
  pose proof (sorted_lt iter iter_perm (referenced (c <$> kept))) as Hs.
  fold used in Hs, Hpts, Hcells.
  assert (∀ n, n ∈ used ↔ ∃ e, e ∈ kept ∧ n ∈ c e) as Hused.
  { intros n. unfold used. rewrite elem_of_sorted by done.
    rewrite elem_of_referenced. split.
    - intros (c0 & (e & -> & He)%list_elem_of_fmap & Hn). eauto.
    - intros (e & He & Hn). exists (c e). split; [|done].
      by apply list_elem_of_fmap_2. }
  split_and!.
  - intros Hnil. apply Hne. by rewrite Hnil.
  - symmetry. by eapply Forall2_length.
  - rewrite Hcells. unfold kept. by apply cells_of_kept.
  - intros x. split.
    + intros (e & n & He & Hn & ->). apply rank_bounds; [done|].
      apply Hused. eauto.
    + intros Hx. destruct (lookup_lt_is_Some_2 used (Z.to_nat x)) as [o Ho];
        [lia|].
      destruct (proj1 (Hused o)) as (e & He & Hn);
        [by eapply list_elem_of_lookup_2|].
      exists e, o. split_and!; [done..|].
      rewrite (rank_lookup used (Z.to_nat x)) by done. lia.
Qed.

(** For the two builders: the kept records and the node list taken from
    each, as a pair that the lemmas below are stated for. *)
Lemma compact_tail_again (pts : list (list F)) (P : list Z → Prop)
    `{!∀ e, Decision (P e)} (c : list Z → list Z) (elems : list (list Z))
    (ug : ugrid F) :
  (∀ e, P e → is_Some (type_code e)) →
  (∀ e t (f : Z → Z), P e → type_code e = Some t →
     P (t :: (f <$> c e)) ∧ c (t :: (f <$> c e)) = f <$> c e) →
  compact_tail iter pts (referenced (c <$> filter P elems))
    (c <$> filter P elems) (omap type_code (filter P elems)) = Ok (Some ug) →
  let again := filter P (records_of_grid ug) in
  compact_tail iter (rows_of_grid ug) (referenced (c <$> again))
    (c <$> again) (omap type_code again) = Ok (Some ug).
Proof.
  intros HP Hc Hug again.
  destruct (compact_tail_shape pts P c elems ug HP Hug)
    as (Hne & Hlen & Hcells & Hranks).
  set (kept := filter P elems) in *.
  set (used := sorted iter (referenced (c <$> kept))) in *.
  assert (∀ e, e ∈ kept → P e) as HkP
    by (by intros e [? _]%list_elem_of_filter).
  assert (records_of_grid ug
          = (λ e, default 0 (type_code e) :: (rank used <$> c e)) <$> kept)
    as Hrec.
  { unfold records_of_grid. rewrite Hcells, <- list_fmap_compose. done. }
  assert (again = records_of_grid ug) as Hagain.
  { unfold again. apply filter_all. rewrite Hrec.
    apply Forall_fmap, Forall_forall. intros e He. simpl.
    destruct (HP e (HkP e He)) as [t Ht]. rewrite Ht. simpl.
    by apply Hc; [apply HkP|]. }
  assert (c <$> again = (λ e, rank used <$> c e) <$> kept) as Hconns.
  { rewrite Hagain, Hrec, <- list_fmap_compose. apply list_fmap_ext.
    intros i e Hi. simpl. apply list_elem_of_lookup_2 in Hi.
    destruct (HP e (HkP e Hi)) as [t Ht]. rewrite Ht. simpl.
    by apply Hc; [apply HkP|]. }
  assert (omap type_code again = (λ e, default 0 (type_code e)) <$> kept)
    as Htypes.
  { rewrite Hagain, Hrec.
    apply (omap_type_code_cons (λ e, default 0 (type_code e))). }
  assert (sorted iter (referenced (c <$> again))
          = Z.of_nat <$> seq 0 (length used)) as Hsorted.
  { symmetry. apply sorted_unique; [done|apply seqZ_sorted|].
    intros x. rewrite elem_of_seqZ, <- Hranks, elem_of_referenced, Hconns.
    split.
    - intros (e & n & He & Hn & ->). exists (rank used <$> c e).
      split; [by apply (list_elem_of_fmap_2 (λ e, rank used <$> c e))|].
      by apply list_elem_of_fmap_2.
    - intros (c0 & (e & -> & He)%list_elem_of_fmap & Hx).
      apply list_elem_of_fmap in Hx as (n & -> & Hn). eauto. }
  assert (length (rows_of_grid ug) = length used) as Hrows
    by (unfold rows_of_grid; by rewrite length_fmap).
  assert (map_result vtk_point (rows_of_grid ug) = Ok (ug_points ug)) as Hvtk.
  { unfold rows_of_grid. apply map_result_Ok, Forall2_fmap_l.
    apply Forall_Forall2_diag, Forall_forall. by intros [[x y] z] _. }
  assert (remap (old2new_of (sorted iter (referenced (c <$> again))))
            (c <$> again) = Ok (c <$> again)) as Hremap.
  { rewrite remap_rank
      by (done || by intros c0 n ??; apply elem_of_referenced; eauto).
    f_equal. rewrite Hsorted, Hconns, <- list_fmap_compose.
    apply list_fmap_ext. intros i e Hi. simpl.
    rewrite <- list_fmap_compose.
    apply list_fmap_ext. intros j n Hn. simpl.
    apply rank_seqZ, Hranks. exists e, n.
    split_and!; [by eapply list_elem_of_lookup_2..|done]. }
  assert (zip_with (λ (conn : list Z) (ct : Z), (ct, conn)) (c <$> again)
            (omap type_code again) = ug_cells ug) as Hzip.
  { rewrite Htypes, Hconns, Hcells.
    apply (zip_with_fmap_same (λ (conn : list Z) (ct : Z), (ct, conn))
             (λ e, rank used <$> c e) (λ e, default 0 (type_code e))). }
  assert (c <$> again ≠ []) as Hnonempty.
  { rewrite Hconns. intros Hnil%fmap_nil_inv. done. }
  unfold compact_tail. rewrite Hremap, Hsorted, <- Hrows, np_take_seqZ.
  destruct (c <$> again) as [|c1 cs] eqn:Hcs; [done|]. cbn [bind].
  unfold build_ugrid. rewrite Hvtk. cbn [bind].
  rewrite Hzip. by destruct ug.
Qed.

Lemma compact_tail_points_used (pts : list (list F)) (P : list Z → Prop)
    `{!∀ e, Decision (P e)} (c : list Z → list Z) (elems : list (list Z))
    (ug : ugrid F) :
  (∀ e, P e → is_Some (type_code e)) →
  compact_tail iter pts (referenced (c <$> filter P elems))
    (c <$> filter P elems) (omap type_code (filter P elems)) = Ok (Some ug) →
  length (ug_cells ug) = length (filter P elems) ∧
  length (ug_points ug) = size (referenced (c <$> filter P elems)) ∧
  ∀ i, (i < length (ug_points ug))%nat →
       ∃ cell, cell ∈ ug_cells ug ∧ Z.of_nat i ∈ cell.2.
Proof.
  intros HP Hug.
  destruct (compact_tail_shape pts P c elems ug HP Hug)
    as (Hne & Hlen & Hcells & Hranks).
  split_and!.
  - by rewrite Hcells, length_fmap.
  - rewrite Hlen. unfold size, set_size. simpl.
    by rewrite (sorted_perm iter iter_perm).
  - intros i Hi.
    destruct (proj2 (Hranks (Z.of_nat i))) as (e & n & He & Hn & Hr); [lia|].
    exists (default 0 (type_code e),
            rank (sorted iter (referenced (c <$> filter P elems))) <$> c e).
    split.
    + rewrite Hcells. apply list_elem_of_fmap. by exists e.
    + simpl. rewrite Hr. by apply list_elem_of_fmap_2.
Qed.

Lemma surface_again (e : list Z) (t : Z) (f : Z → Z) :
  surface_eligible e → type_code e = Some t →
  surface_eligible (t :: (f <$> drop 1 e)) ∧
  drop 1 (t :: (f <$> drop 1 e)) = f <$> drop 1 e.
Proof.
  intros He Ht. split; [|done]. unfold surface_eligible in *. simpl.
  by rewrite <- Ht.
Qed.

Lemma line_again (e : list Z) (t : Z) (f : Z → Z) :
  line_eligible e → type_code e = Some t →
  line_eligible (t :: (f <$> (take 2 ∘ drop 1) e)) ∧
  (take 2 ∘ drop 1) (t :: (f <$> (take 2 ∘ drop 1) e))
  = f <$> (take 2 ∘ drop 1) e.
Proof.
  intros [H3 Hlen] Ht. destruct e as [|t0 [|a [|b rest]]]; simpl in Hlen;
    try lia.
  simpl in *. rewrite H3 in Ht. injection Ht as <-. split; [|done].
  split; [done|simpl; lia].
Qed.

(** X12. Compacting a compact mesh again changes nothing: when a builder
    returns a mesh, the same builder applied to the points and the cells of
    that mesh returns it unchanged. *)
Theorem recompaction (pts : list (list F)) (elems : list (list Z))
    (ug : ugrid F) :
  (build_surface_compacted iter pts elems = Ok (Some ug) →
   build_surface_compacted iter (rows_of_grid ug) (records_of_grid ug)
   = Ok (Some ug)) ∧
  (build_boundary_compacted_2d iter pts elems = Ok (Some ug) →
   build_boundary_compacted_2d iter (rows_of_grid ug) (records_of_grid ug)
   = Ok (Some ug)).
Proof.
  rewrite !build_surface_compacted_eq, !build_boundary_compacted_2d_eq. split.
  - apply (compact_tail_again pts surface_eligible (drop 1));
      [apply surface_type_code|apply surface_again].
  - apply (compact_tail_again pts line_eligible (take 2 ∘ drop 1));
      [apply line_type_code|apply line_again].
Qed.

(** X13. A mesh returned by a builder has one cell per kept record and one
    point per distinct node index of those records, and none of its points
    is left unused: every point position occurs in some cell. *)
Theorem compact_mesh_shape (pts : list (list F)) (elems : list (list Z))
    (ug : ugrid F) :
  (build_surface_compacted iter pts elems = Ok (Some ug) →
   length (ug_cells ug) = length (filter surface_eligible elems) ∧
   length (ug_points ug)
   = size (referenced (drop 1 <$> filter surface_eligible elems)) ∧
   ∀ i, (i < length (ug_points ug))%nat →
        ∃ cell, cell ∈ ug_cells ug ∧ Z.of_nat i ∈ cell.2) ∧
  (build_boundary_compacted_2d iter pts elems = Ok (Some ug) →
   length (ug_cells ug) = length (filter line_eligible elems) ∧
   length (ug_points ug)
   = size (referenced (take 2 ∘ drop 1 <$> filter line_eligible elems)) ∧
   ∀ i, (i < length (ug_points ug))%nat →
        ∃ cell, cell ∈ ug_cells ug ∧ Z.of_nat i ∈ cell.2).
Proof.
  rewrite build_surface_compacted_eq, build_boundary_compacted_2d_eq. split.
  - apply (compact_tail_points_used pts surface_eligible (drop 1)).
    apply surface_type_code.
  - apply (compact_tail_points_used pts line_eligible (take 2 ∘ drop 1)).
    apply line_type_code.
Qed.
End CompactMesh.

(** ** The reader plugin *)


Section RequestLemmas.
Context {F : Type} (fzero : F) (parse_float : string → option F)
  (iter : gset Z → list Z).



Lemma blocks_loop_Raise (ndime : Z) (pts : list (list F))
    (markers : list (string * list (list Z)))
    (acc : list (string * ugrid F)) (e : exn) :
  for_each markers (block_step iter ndime pts) acc = Raise e →
  ∃ m, m ∈ markers ∧ build_block iter ndime pts m.2 = Raise e.
Proof.
  revert acc. induction markers as [|[tag elems] markers IH]; intros acc; simpl;
    [done|].
  intros [Hstep|(acc' & _ & Hb)]%bind_Raise.
  - apply bind_Raise in Hstep as [Hs|(surf & _ & Hs)].
    + exists (tag, elems). split; [left|done].
    + by destruct surf.
  - destruct (IH _ Hb) as (m & Hm & He). exists m. split; [by right|done].
Qed.
End RequestLemmas.

#[global] Instance block_name_inj : Inj (=) (=) block_name.
Proof. intros a b H. unfold block_name in H. simpl in H. by injection H. Qed.


Section RequestTheorems.
Context {F : Type} (fzero : F) (parse_float : string → option F)
  (iter : gset Z → list Z).


Hypothesis iter_perm : ∀ s, iter s ≡ₚ elements s.

Lemma build_block_fails (ndime : Z) (pts : list (list F)) (tag : string)
    (elems : list (list Z)) :
  (∀ e, build_block iter ndime pts elems = Raise e → e = IndexError) ∧
  (Forall (λ row, (3 ≤ length row)%nat) pts →
   build_block iter ndime pts elems = Raise IndexError ↔
   dangling ndime pts (tag, elems)).
Proof.
  unfold build_block, dangling, block_nodes. simpl.
  destruct (decide (ndime = 2)) as [Hd|Hd].
  - assert (filter (block_eligible ndime) elems
            = filter line_eligible elems) as ->.
    { apply list_filter_iff. intros x. unfold block_eligible.
      by rewrite decide_True. }
    rewrite build_boundary_compacted_2d_eq.
    destruct (compact_tail_fails iter iter_perm pts line_eligible
                (take 2 ∘ drop 1) elems line_type_code) as [He Hiff].
    split; [done|]. intros Hrows. by rewrite (Hiff Hrows).
  - assert (filter (block_eligible ndime) elems
            = filter surface_eligible elems) as ->.
    { apply list_filter_iff. intros x. unfold block_eligible.
      by rewrite decide_False. }
    rewrite build_surface_compacted_eq.
    destruct (compact_tail_fails iter iter_perm pts surface_eligible
                (drop 1) elems surface_type_code) as [He Hiff].
    split; [done|]. intros Hrows. by rewrite (Hiff Hrows).
Qed.

Lemma blocks_loop_fails (ndime : Z) (pts : list (list F))
    (markers : list (string * list (list Z)))
    (acc : list (string * ugrid F)) :
  (∃ m e, m ∈ markers ∧ build_block iter ndime pts m.2 = Raise e) →
  ∃ e, for_each markers (block_step iter ndime pts) acc = Raise e.
Proof.
  revert acc. induction markers as [|[tag elems] markers IH]; intros acc.
  - by intros (m & e & ?%elem_of_nil & _).
  - intros (m & e & Hm & Hb). simpl.
    destruct (build_block iter ndime pts elems) as [surf|e'] eqn:Hs; simpl;
      [|by exists e'].
    apply elem_of_cons in Hm as [->|Hm]; [simpl in Hb; congruence|].
    destruct surf; apply IH; eauto.
Qed.

Lemma request_Raise (path : string) (raw : list string) (e : exn) :
  path ≠ "" →
  RequestData fzero parse_float iter (Some path) raw = Raise e →
  read_su2 fzero parse_float raw = Raise e ∨
  ∃ ndime pts vol_conns vol_ctypes markers m,
    read_su2 fzero parse_float raw
    = Ok (ndime, pts, vol_conns, vol_ctypes, markers) ∧
    e = IndexError ∧ m ∈ markers ∧ dangling ndime pts m.
Proof.
  intros Hpath Hrun. destruct path as [|c path]; [done|].
  unfold RequestData in Hrun.
  apply bind_Raise in Hrun
    as [Hread|([[[[ndime pts] vc] vt] markers] & Hread & Hrun)]; [by left|].
  right.
  assert (Forall (λ row, (3 ≤ length row)%nat) pts) as Hrows.
  { apply read_su2_Ok in Hread as (_ & Hp & _).
    apply read_points_Ok in Hp as (i & npoin & _ & _ & _ & _ & Hr).
    apply Forall_forall. intros row Hrow.
    apply list_elem_of_lookup in Hrow as [k Hk].
    by destruct (Hr k row Hk) as [-> _]. }
  apply bind_Raise in Hrun as [Hout0|(out0 & _ & Hrun)].
  { destruct (build_ugrid_total pts vc vt Hrows) as [ug Hug]. congruence. }
  apply bind_Raise in Hrun as [Hblocks|(blocks & _ & [=])].
  apply blocks_loop_Raise in Hblocks as ([tag elems] & Hin & Hb).
  simpl in Hb. destruct (build_block_fails ndime pts tag elems) as [He Hiff].
  apply He in Hb as Heq. subst e.
  exists ndime, pts, vc, vt, markers, (tag, elems).
  split_and!; [done..|]. by apply (Hiff Hrows).
Qed.

(** X15. A call of [RequestData] on a named file fails with the error of
    [read_su2] when the file is not read, and never with [KeyError]. When
    the file is read and the integers of its element records fit in 64
    bits, the call fails exactly when some marker of the dict has a kept
    record with a node index outside the point array, and then with
    [IndexError]: one such marker makes the whole call fail, whatever the
    volume and the other markers are. Otherwise it returns 1 with its two
    outputs. *)
Theorem request_failure (path : string) (raw : list string) :
  path ≠ "" →
  let r := RequestData fzero parse_float iter (Some path) raw in
  (∀ e, read_su2 fzero parse_float raw = Raise e → r = Raise e) ∧
  r ≠ Raise KeyError ∧
  (∀ ndime pts vol_conns vol_ctypes markers,
     read_su2 fzero parse_float raw
     = Ok (ndime, pts, vol_conns, vol_ctypes, markers) →
     Forall (Forall vtk_id) vol_conns →
     Forall (λ m, Forall (Forall vtk_id) m.2) markers →
     ((∃ m, m ∈ markers ∧ dangling ndime pts m) → r = Raise IndexError) ∧
     ((∀ m, m ∈ markers → ¬ dangling ndime pts m) →
      ∃ out0 blocks, r = Ok (1, Some (out0, blocks)))).
Proof.
  intros Hpath r. split_and!.
  - intros e Hread. unfold r. destruct path as [|c path]; [done|].
    unfold RequestData. by rewrite Hread.
  - intros Hkey. apply (request_Raise _ _ _ Hpath) in Hkey
      as [Hread|(? & ? & ? & ? & ? & ? & _ & [=] & _)].
    apply read_su2_Raise in Hread
      as [H1|(nd & _ & [H2|(ps & _ & [H3|(vol & _ & H4)])])].
    + by apply read_ndime_Raise in H1 as [[_ [=]]|[_ [[=]|[=]]]].
    + by apply read_points_Raise in H2 as [[_ [=]]|[_ [[=]|[=]]]].
    + by apply read_volume_malformed in H3 as [[=]|[=]].
    + by apply read_markers_Raise in H4 as [[_ [=]]|[_ [[=]|[=]]]].
  - intros ndime pts vc vt markers Hread _ _.
    assert (Forall (λ row, (3 ≤ length row)%nat) pts) as Hrows.
    { apply read_su2_Ok in Hread as (_ & Hp & _).
      apply read_points_Ok in Hp as (i & npoin & _ & _ & _ & _ & Hr).
      apply Forall_forall. intros row Hrow.
      apply list_elem_of_lookup in Hrow as [k Hk].
      by destruct (Hr k row Hk) as [-> _]. }
    split.
    + intros ([tag elems] & Hin & Hd).
      destruct (build_block_fails ndime pts tag elems) as [_ Hiff].
      apply (Hiff Hrows) in Hd.
      destruct (blocks_loop_fails ndime pts markers [])
        as [e He]; [by exists (tag, elems), IndexError|].
      apply blocks_loop_Raise in He as Hm. destruct Hm as ([t es] & _ & Hb).
      simpl in Hb. destruct (build_block_fails ndime pts t es) as [Hid _].
      apply Hid in Hb. subst e.
      unfold r. destruct path as [|c path]; [done|].
      unfold RequestData. rewrite Hread. simpl.
      destruct (build_ugrid_total pts vc vt Hrows) as [ug ->]. simpl.
      by rewrite He.
    + intros Hnone. destruct r as [[ret out]|e] eqn:Hr.
      * unfold r in Hr. destruct path as [|c path]; [done|].
        unfold RequestData in Hr. rewrite Hread in Hr. simpl in Hr.
        apply bind_Ok in Hr as (out0 & _ & Hr).
        apply bind_Ok in Hr as (blocks & _ & [= <- <-]). eauto.
      * exfalso. apply (request_Raise _ _ _ Hpath) in Hr
          as [Hr|(? & ? & ? & ? & ms & m & Hread' & _ & Hm & Hd)].
        -- congruence.
        -- rewrite Hread in Hread'. injection Hread' as <- <- <- <- <-.
           by apply (Hnone m).
Qed.
End RequestTheorems.

(** * Instances of the further properties *)

Lemma indented_comment_kept_witness :
  "  % note" ∈ ["% first"; "  % note"; "NDIME= 2"] ∧
  startswith "%" "  % note" = false ∧
  startswith "%" (lstrip "  % note") = true ∧
  strip "  % note" ∈ filter_lines ["% first"; "  % note"; "NDIME= 2"] ∧
  startswith "%" (strip "  % note") = true.
Proof.
  assert ("  % note" ∈ ["% first"; "  % note"; "NDIME= 2"]) as Hin
    by (right; left).
  assert (startswith "%" "  % note" = false) as Hraw by reflexivity.
  assert (startswith "%" (lstrip "  % note") = true) as Hl by reflexivity.
  split; [exact Hin|]. split; [exact Hraw|]. split; [exact Hl|].
  exact (indented_comment_kept _ _ Hin Hraw Hl).
Defined.

Lemma nonpositive_counts_witness :
  int_value ["NDIME= 2"; "NPOIN= -1"] 1 = Ok (-1) ∧
  find ["NDIME= 2"; "NPOIN= -1"] "NPOIN" = Some 1%nat ∧
  read_points 0 sample_float ["NDIME= 2"; "NPOIN= -1"] 2 = Raise ValueError.
Proof.
  assert (int_value ["NDIME= 2"; "NPOIN= -1"] 1 = Ok (-1)) as Hn
    by reflexivity.
  assert (find ["NDIME= 2"; "NPOIN= -1"] "NPOIN" = Some 1%nat) as Hi
    by (vm_compute; reflexivity).
  split; [exact Hn|]. split; [exact Hi|].
  apply (proj1 (nonpositive_counts 0 sample_float _ 2 _ _ Hn) Hi). lia.
Defined.

Lemma sections_within_file_witness :
  read_su2 0 sample_float sample_file = Ok sample_result ∧
  ∃ i npoin,
    find (filter_lines sample_file) "NPOIN" = Some i ∧
    int_value (filter_lines sample_file) i = Ok npoin ∧
    (i + Z.to_nat npoin < length (filter_lines sample_file))%nat.
Proof.
  assert (read_su2 0 sample_float sample_file = Ok sample_result) as Hrun
    by (vm_compute; reflexivity).
  split; [exact Hrun|].
  exact (proj1 (sections_within_file 0 sample_float sample_file
                  _ _ _ _ _ Hrun)).
Defined.

Lemma short_point_line_witness :
  read_su2 0 sample_float short_file
  = Ok (3, [[5; 5; 5]; [1; 2; 3]], [], [], []) ∧
  ∃ i, find (filter_lines short_file) "NPOIN" = Some i ∧
    ∀ k row, [[5; 5; 5]; [1; 2; 3]] !! k = Some row →
      ∃ l, filter_lines short_file !! (i + 1 + k)%nat = Some l ∧
        ((Z.to_nat 3 ≤ length (split l))%nat ∨
         ∃ s x, split l = [s] ∧ sample_float s = Some x ∧
                row = replicate (Z.to_nat 3) x
                      ++ replicate (3 - Z.to_nat 3) 0).
Proof.
  assert (read_su2 0 sample_float short_file
          = Ok (3, [[5; 5; 5]; [1; 2; 3]], [], [], [])) as Hrun
    by (vm_compute; reflexivity).
  split; [exact Hrun|].
  exact (short_point_line 0 sample_float short_file _ _ _ _ _ Hrun
           (or_intror eq_refl)).
Defined.

Lemma marker_order_witness :
  read_su2 0 sample_float sample_file = Ok sample_result ∧
  ∃ i nmark p' blocks,
    find (filter_lines sample_file) "NMARK" = Some i ∧
    int_value (filter_lines sample_file) i = Ok nmark ∧
    marker_blocks (filter_lines sample_file) 2 (S i) (Z.to_nat nmark)
    = Ok (p', blocks) ∧
    sample_result.2.*1 = reverse (remove_dups (reverse blocks.*1)) ∧
    (NoDup blocks.*1 → sample_result.2 = blocks).
Proof.
  assert (read_su2 0 sample_float sample_file = Ok sample_result) as Hrun
    by (vm_compute; reflexivity).
  split; [exact Hrun|].
  exact (marker_order 0 sample_float sample_file _ _ _ _ _ Hrun).
Defined.

Lemma marker_keywords_unchecked_witness :
  free_of "=" "MARKER_TAG" ∧ free_of "=" "NAME" ∧
  free_of "=" "MARKER_ELEMS" ∧ free_of "=" "COUNT" ∧
  read_marker (["NMARK= 1"] ++ ["MARKER_TAG= wall"; "MARKER_ELEMS= 1"; "3 0 1"])
    2 (length ["NMARK= 1"])
  = read_marker (["NMARK= 1"] ++ ["NAME= wall"; "COUNT= 1"; "3 0 1"])
      2 (length ["NMARK= 1"]).
Proof.
  assert (free_of "=" "MARKER_TAG") as H1 by (by vm_compute).
  assert (free_of "=" "NAME") as H2 by (by vm_compute).
  assert (free_of "=" "MARKER_ELEMS") as H3 by (by vm_compute).
  assert (free_of "=" "COUNT") as H4 by (by vm_compute).
  split; [exact H1|]. split; [exact H2|]. split; [exact H3|].
  split; [exact H4|].
  exact (marker_keywords_unchecked ["NMARK= 1"] ["3 0 1"] "MARKER_TAG" "NAME"
           "MARKER_ELEMS" "COUNT" " wall" " 1" 2 H1 H2 H3 H4).
Defined.

Lemma build_ugrid_spec_witness :
  Forall (λ row, (3 ≤ length row)%nat) sample_pts ∧
  Forall (Forall vtk_id) [[0; 1; 2]; [3; 4; 5; 99]; [6; 7]] ∧
  Forall vtk_cell_type [5; 9] ∧
  ∃ ug, build_ugrid sample_pts [[0; 1; 2]; [3; 4; 5; 99]; [6; 7]] [5; 9]
        = Ok ug ∧
    length (ug_points ug) = length sample_pts ∧
    length (ug_cells ug) = 2%nat ∧
    ∀ j conn ct, [[0; 1; 2]; [3; 4; 5; 99]; [6; 7]] !! j = Some conn →
                 [5; 9] !! j = Some ct →
                 ug_cells ug !! j = Some (ct, conn).
Proof.
  assert (Forall (λ row, (3 ≤ length row)%nat) sample_pts) as Hrows
    by (apply (bool_decide_unpack _); vm_compute; reflexivity).
  assert (Forall (Forall vtk_id) [[0; 1; 2]; [3; 4; 5; 99]; [6; 7]]) as Hids
    by (repeat constructor; unfold vtk_id; lia).
  assert (Forall vtk_cell_type [5; 9]) as Htypes
    by (repeat constructor; [by exists 5|by exists 9]).
  split; [exact Hrows|]. split; [exact Hids|]. split; [exact Htypes|].
  exact (proj2 (build_ugrid_spec sample_pts [[0; 1; 2]; [3; 4; 5; 99]; [6; 7]]
                  [5; 9]) Hrows Hids Htypes).
Defined.

Lemma volume_grid_built_witness :
  read_su2 0 sample_float sample_file = Ok sample_result ∧
  Forall (Forall vtk_id) sample_result.1.1.2 ∧
  Forall vtk_cell_type sample_result.1.2 ∧
  ∃ ug, build_ugrid sample_result.1.1.1.2 sample_result.1.1.2 sample_result.1.2
        = Ok ug ∧
    length (ug_points ug) = length sample_result.1.1.1.2 ∧
    ug_cells ug = zip sample_result.1.2 sample_result.1.1.2 ∧
    length (ug_cells ug) = length sample_result.1.1.2.
Proof.
  assert (read_su2 0 sample_float sample_file = Ok sample_result) as Hrun
    by (vm_compute; reflexivity).
  assert (Forall (Forall vtk_id) sample_result.1.1.2) as Hids
    by (repeat constructor; unfold vtk_id; lia).
  split; [exact Hrun|]. split; [exact Hids|].
  exact (volume_grid_built 0 sample_float sample_file _ _ _ _ _ Hrun Hids).
Defined.

Lemma compaction_failure_witness :
  (∀ s : gset Z, elements s ≡ₚ elements s) ∧
  Forall (λ row, (3 ≤ length row)%nat) sample_pts ∧
  (∃ e n, e ∈ filter surface_eligible [[5; 0; 1; 14]] ∧ n ∈ drop 1 e ∧
          ¬ in_range sample_pts n) ∧
  build_surface_compacted elements sample_pts [[5; 0; 1; 14]]
  = Raise IndexError.
Proof.
  assert (Forall (λ row, (3 ≤ length row)%nat) sample_pts) as Hrows
    by (apply (bool_decide_unpack _); vm_compute; reflexivity).
  assert (∃ e n, e ∈ filter surface_eligible [[5; 0; 1; 14]] ∧ n ∈ drop 1 e ∧
                 ¬ in_range sample_pts n) as Hout.
  { exists [5; 0; 1; 14], 14. split; [left|]. split; [do 2 right; left|].
    unfold in_range. vm_compute. intros [_ H]. discriminate H. }
  split; [exact elements_perm|]. split; [exact Hrows|]. split; [exact Hout|].
  exact (proj2 (proj1 (proj2 (proj2
    (compaction_failure elements elements_perm sample_pts [[5; 0; 1; 14]]))
    Hrows)) Hout).
Defined.

Lemma recompaction_witness :
  (∀ s : gset Z, elements s ≡ₚ elements s) ∧
  build_surface_compacted elements sample_pts sample_surface
  = Ok (Some sample_surface_mesh) ∧
  build_surface_compacted elements (rows_of_grid sample_surface_mesh)
    (records_of_grid sample_surface_mesh)
  = Ok (Some sample_surface_mesh).
Proof.
  assert (build_surface_compacted elements sample_pts sample_surface
          = Ok (Some sample_surface_mesh)) as Hrun by (vm_compute; reflexivity).
  split; [exact elements_perm|]. split; [exact Hrun|].
  exact (proj1 (recompaction elements elements_perm sample_pts sample_surface
                  sample_surface_mesh) Hrun).
Defined.

Lemma compact_mesh_shape_witness :
  (∀ s : gset Z, elements s ≡ₚ elements s) ∧
  build_boundary_compacted_2d elements sample_pts sample_lines
  = Ok (Some sample_lines_mesh) ∧
  length (ug_cells sample_lines_mesh)
  = length (filter line_eligible sample_lines) ∧
  length (ug_points sample_lines_mesh)
  = size (referenced (take 2 ∘ drop 1 <$> filter line_eligible sample_lines)) ∧
  ∀ i, (i < length (ug_points sample_lines_mesh))%nat →
       ∃ cell, cell ∈ ug_cells sample_lines_mesh ∧ Z.of_nat i ∈ cell.2.
Proof.
  assert (build_boundary_compacted_2d elements sample_pts sample_lines
          = Ok (Some sample_lines_mesh)) as Hrun by (vm_compute; reflexivity).
  split; [exact elements_perm|]. split; [exact Hrun|].
  exact (proj2 (compact_mesh_shape elements elements_perm sample_pts
                  sample_lines sample_lines_mesh) Hrun).
Defined.


Lemma request_failure_witness :
  (∀ s : gset Z, elements s ≡ₚ elements s) ∧
  "mesh.su2" ≠ "" ∧
  read_su2 0 sample_float dangling_file
  = Ok (2, [[0; 0; 0]; [1; 0; 0]], [], [], [("wall", [[3; 0; 7]])]) ∧
  Forall (Forall vtk_id) [] ∧
  Forall (λ m : string * list (list Z), Forall (Forall vtk_id) m.2)
    [("wall", [[3; 0; 7]])] ∧
  (∃ m, m ∈ [("wall", [[3; 0; 7]])] ∧
        dangling 2 [[0; 0; 0]; [1; 0; 0]] m) ∧
  RequestData 0 sample_float elements (Some "mesh.su2") dangling_file
  = Raise IndexError.
Proof.
  assert ("mesh.su2" ≠ "") as Hpath by discriminate.
  assert (read_su2 0 sample_float dangling_file
          = Ok (2, [[0; 0; 0]; [1; 0; 0]], [], [], [("wall", [[3; 0; 7]])]))
    as Hread by (vm_compute; reflexivity).
  assert (Forall (Forall vtk_id) []) as Hids by constructor.
  assert (Forall (λ m : string * list (list Z), Forall (Forall vtk_id) m.2)
            [("wall", [[3; 0; 7]])]) as Hmids
    by (repeat constructor; unfold vtk_id; lia).
  assert (∃ m, m ∈ [("wall", [[3; 0; 7]])] ∧
               dangling 2 [[0; 0; 0]; [1; 0; 0]] m) as Hd.
  { exists ("wall", [[3; 0; 7]]). split; [left|].
    exists [3; 0; 7], 7. split; [left|]. split; [right; left|].
    unfold in_range. simpl. lia. }
  split; [exact elements_perm|]. split; [exact Hpath|].
  split; [exact Hread|]. split; [exact Hids|]. split; [exact Hmids|].
  split; [exact Hd|].
  exact (proj1 (proj2 (proj2 (request_failure 0 sample_float elements
                                elements_perm "mesh.su2" dangling_file Hpath))
                        _ _ _ _ _ Hread Hids Hmids) Hd).
Defined.
